(** * vshome: device registry and synchronization hub

    A shallow embedding of [vshome/main.go]: the device store
    ([NewStore], [List], [Get], [Update], [copyState]), the per-kind
    normalization ([normalizeValue], [clampToInt], [clampToFloat],
    [toBool]), the catalog loader ([loadDevices]) and the message
    handling of the hub ([HandleWS], the PUT handler, [Run]).

    Go maps and the values stored in them are references, so the store is
    modelled over an explicit heap; a Go [float64] is an IEEE 754 binary64
    value ([spec_float] at precision 53), a Go [int] a 64-bit integer in
    [Z], a Go string a byte string.  The mutexes of the source make every
    method of the store and every broadcast one step; the steps of the
    goroutines are taken one after the other. *)

From Stdlib Require Import ZArith String Ascii List Bool.
From Stdlib Require Import Floats.SpecFloat.
From stdpp Require Import gmap strings list fin_maps.

Local Open Scope Z_scope.
#[local] Set Warnings "-clear-no-such-hyp".

(** ** Floating point *)

Definition float64 := spec_float.
Definition float32 := spec_float.

Definition f64_add : float64 -> float64 -> float64 := SFadd 53 1024.
Definition f32_add : float32 -> float32 -> float32 := SFadd 24 128.

(** Conversion of an integer: the nearest binary64 value. *)
Definition f64_of_Z (n : Z) : float64 := binary_normalize 53 1024 n 0 false.

(** Correctly rounded quotient of two integers that binary64 holds exactly:
    [f64_ratio 426 10] is the constant [42.6]. *)
Definition f64_ratio (a b : Z) : float64 := SFdiv 53 1024 (f64_of_Z a) (f64_of_Z b).

(** [float64(x)] for a [float32] x: exact, renormalised to 53 bits. *)
Definition f64_of_f32 (f : float32) : float64 :=
  match f with
  | S754_finite s m e => binary_normalize 53 1024 (cond_Zopp s (Zpos m)) e false
  | _ => f
  end.

Definition f64_half : float64 := S754_finite false 4503599627370496 (-53).
Definition f32_half : float32 := S754_finite false 8388608 (-24).

Definition is_nan (f : spec_float) : bool :=
  match f with S754_nan => true | _ => false end.

Definition is_finite (f : spec_float) : bool :=
  match f with S754_zero _ | S754_finite _ _ _ => true | _ => false end.

(** The integer part of a finite value (truncation toward zero). *)
Definition SFtrunc (f : spec_float) : option Z :=
  match f with
  | S754_zero _ => Some 0
  | S754_finite s m e => Some (cond_Zopp s (Z.shiftl (Zpos m) e))
  | _ => None
  end.

Definition min_int64 : Z := - 2 ^ 63.
Definition max_int64 : Z := 2 ^ 63 - 1.

Definition in_int64 (n : Z) : bool := (min_int64 <=? n) && (n <=? max_int64).

(** ** What the Go runtime and standard library supply

    [int(f)] of a float the result type cannot represent (NaN, infinities,
    magnitudes beyond 64 bits) is implementation-dependent in Go;
    [strconv.ParseFloat] (behind [json.Number.Float64]) and
    [strings.TrimSpace] are library functions.  [ParseFloat s] is [None]
    when Go returns a non-nil error. *)
Class GoRuntime := {
  float_to_int_unrepresentable : spec_float -> Z;
  ParseFloat : string -> option float64;
  TrimSpace : string -> string
}.

(** [int(f)] on a 64-bit platform. *)
Definition int_of_float `{GoRuntime} (f : spec_float) : Z :=
  match SFtrunc f with
  | Some z => if in_int64 z then z else float_to_int_unrepresentable f
  | None => float_to_int_unrepresentable f
  end.

(** ** Strings *)

Definition to_lower (c : ascii) : ascii :=
  let n := nat_of_ascii c in
  if (Nat.leb 65 n && Nat.leb n 90)%bool then ascii_of_nat (n + 32) else c.

(** [strings.EqualFold] against an ASCII word none of whose letters has a
    non-ASCII case variant (k and s are the only such letters; the words
    compared below are [true] and [on]): byte-wise comparison up to ASCII
    case. *)
Fixpoint EqualFold (s t : string) : bool :=
  match s, t with
  | EmptyString, EmptyString => true
  | String a s', String b t' => Ascii.eqb (to_lower a) (to_lower b) && EqualFold s' t'
  | _, _ => false
  end.

Definition digit_of (c : ascii) : option Z :=
  let n := Z.of_nat (nat_of_ascii c) in
  if (48 <=? n) && (n <=? 57) then Some (n - 48) else None.

Fixpoint parse_digits (s : string) (acc : Z) : option Z :=
  match s with
  | EmptyString => Some acc
  | String c s' =>
      match digit_of c with
      | Some d => parse_digits s' (10 * acc + d)
      | None => None
      end
  end.

(** [strconv.ParseInt(s, 10, 64)], as [json.Number.Int64] calls it: an
    optional sign, one or more decimal digits, the value within 64 bits;
    [None] stands for a non-nil error (syntax or range). *)
Definition ParseInt (s : string) : option Z :=
  match s with
  | EmptyString => None
  | String c rest =>
      let neg := Ascii.eqb c "-" in
      let body := if (Ascii.eqb c "+" || neg)%bool then rest else s in
      match body with
      | EmptyString => None
      | _ =>
          match parse_digits body 0 with
          | None => None
          | Some un =>
              if neg then (if un <=? 2 ^ 63 then Some (- un) else None)
              else (if un <? 2 ^ 63 then Some un else None)
          end
      end
  end.

(** ** Dynamic values ([interface{}], Go's [any])

    The dynamic types the code switches on, [nil], and a reference for the
    composite values a decoder produces ([map[string]interface{}],
    [[]interface{}]), which live in the heap. *)
Definition addr := positive.

Inductive any :=
  | VNil
  | VBool (b : bool)
  | VInt (n : Z)
  | VInt64 (n : Z)
  | VFloat64 (f : float64)
  | VFloat32 (f : float32)
  | VString (s : string)
  | VNumber (s : string)
  | VRef (l : addr).

(** ** Normalization *)

Definition clampInt (value min max : Z) : Z :=
  if value <? min then min
  else if value >? max then max
  else value.

Definition clampFloat (value min max : float64) : float64 :=
  if SFltb value min then min
  else if SFltb max value then max
  else value.

Section Normalization.
Context `{GoRuntime}.

Definition clampToInt (value : any) (min max : Z) : Z :=
  match value with
  | VInt number => clampInt number min max
  | VInt64 number => clampInt number min max
  | VFloat64 number => clampInt (int_of_float (f64_add number f64_half)) min max
  | VFloat32 number => clampInt (int_of_float (f32_add number f32_half)) min max
  | VNumber number =>
      match ParseInt number with
      | Some parsed => clampInt parsed min max
      | None => min
      end
  | _ => min
  end.

Definition clampToFloat (value : any) (min max : float64) : float64 :=
  match value with
  | VFloat64 number => clampFloat number min max
  | VFloat32 number => clampFloat (f64_of_f32 number) min max
  | VInt number => clampFloat (f64_of_Z number) min max
  | VInt64 number => clampFloat (f64_of_Z number) min max
  | VNumber number =>
      match ParseFloat number with
      | Some parsed => clampFloat parsed min max
      | None => min
      end
  | _ => min
  end.

Definition f64_nonzero (f : float64) : bool :=
  match SFcompare f (S754_zero false) with
  | Some Eq => false
  | _ => true
  end.

Definition toBool (value : any) : bool :=
  match value with
  | VBool v => v
  | VString v => EqualFold v "true" || String.eqb v "1" || EqualFold v "on"
  | VInt v => negb (v =? 0)
  | VInt64 v => negb (v =? 0)
  | VFloat64 v => f64_nonzero v
  | _ => false
  end.

Definition level_kind (kind : string) : bool :=
  String.eqb kind "blind" || String.eqb kind "humidifier".

Definition switch_kind (kind : string) : bool :=
  String.eqb kind "toggle" || String.eqb kind "lock" || String.eqb kind "sensor"
  || String.eqb kind "toaster" || String.eqb kind "doors" || String.eqb kind "vacuum".

Definition normalizeValue (kind key : string) (value : any) : any :=
  if level_kind kind then
    if String.eqb key "position" || String.eqb key "level"
    then VInt (clampToInt value 0 100)
    else value
  else if String.eqb kind "thermostat" then
    if String.eqb key "temperature"
    then VFloat64 (clampToFloat value (f64_of_Z 10) (f64_of_Z 30))
    else value
  else if switch_kind kind then
    if String.eqb key "on" || String.eqb key "open" || String.eqb key "locked"
    then VBool (toBool value)
    else if String.eqb key "mode" then
      match value with
      | VString mode => VString (TrimSpace mode)
      | _ => value
      end
    else value
  else value.
End Normalization.

(** ** The heap

    A Go map is a reference to a mutable table and a slice shares its
    backing array, so both are heap objects; copying a map value or an
    [interface{}] holding one copies the reference, not the table. *)
Inductive object :=
  | OMap (m : gmap string any)
  | OSlice (l : list any).

Abbreviation heap := (gmap addr object).

(** Computations over the heap; [None] is a run-time panic. *)
Definition M (A : Type) : Type := heap -> option (A * heap).

Definition ret {A} (a : A) : M A := fun h => Some (a, h).

Definition bind {A B} (c : M A) (k : A -> M B) : M B :=
  fun h => match c h with
           | Some (a, h') => k a h'
           | None => None
           end.

Definition panic {A} : M A := fun _ => None.

Notation "'do' x <- c ; k" := (bind c (fun x => k))
  (at level 10, x name, c at level 100, k at level 200).

(** [make(map[string]interface{})] and friends: a fresh address. *)
Definition alloc (o : object) : M addr :=
  fun h => let l := fresh (dom h) in Some (l, <[l := o]> h).

Definition load_map (l : addr) : M (gmap string any) :=
  fun h => match h !! l with
           | Some (OMap m) => Some (m, h)
           | _ => None
           end.

Definition store_map (l : addr) (m : gmap string any) : M unit :=
  fun h => match h !! l with
           | Some (OMap _) => Some (tt, <[l := OMap m]> h)
           | _ => None
           end.

(** [m[key] = v]; assignment to an entry of a nil map panics. *)
Definition map_assign (m : option addr) (key : string) (v : any) : M unit :=
  match m with
  | None => panic
  | Some l => do entries <- load_map l; store_map l (<[key := v]> entries)
  end.

(** A [for ... range] loop over a list, threading the loop state. *)
Fixpoint for_each {A S} (l : list A) (body : S -> A -> M S) (s : S) : M S :=
  match l with
  | [] => ret s
  | x :: l' => do s' <- body s x; for_each l' body s'
  end.

(** The entries a [range] over a map argument visits (none for a nil map).
    Go leaves the order open; [map_to_list] fixes one, and
    [merge_entries_any_order] shows the result does not depend on it. *)
Definition range_entries (state : option (gmap string any)) : list (string * any) :=
  match state with
  | None => []
  | Some m => map_to_list m
  end.

(** ** Devices and the store *)

(** [State] is a map: [None] is the nil map, [Some l] the table at [l]. *)
Record Device := {
  ID : string;
  Name : string;
  Kind : string;
  Room : string;
  State : option addr
}.

Definition with_State (d : Device) (st : option addr) : Device :=
  {| ID := ID d; Name := Name d; Kind := Kind d; Room := Room d; State := st |}.

(** The store.  [devices] maps an id to a [*Device]; no method hands such a
    pointer out or assigns to a field through it (each dereferences and
    copies the struct, [copyDevice := *device]), so the pointed-to struct
    is held by value.  What the struct's [State] refers to is shared and mutable: it
    stays an address. *)
Record Store := {
  devices : gmap string Device;
  order : list string
}.

Definition copyState (state : option addr) : M addr :=
  match state with
  | None => alloc (OMap ∅)
  | Some l =>
      do entries <- load_map l;
      alloc (OMap (foldl (fun copyMap kv => <[kv.1 := kv.2]> copyMap) ∅ (map_to_list entries)))
  end.

(** [copyDevice := *device; copyDevice.State = copyState(device.State)] *)
Definition copy_device (device : Device) : M Device :=
  do st <- copyState (State device);
  ret (with_State device (Some st)).

Definition NewStore (catalog : list Device) : M Store :=
  for_each catalog
    (fun s device =>
       do copyDevice <- copy_device device;
       ret {| devices := <[ID device := copyDevice]> (devices s);
              order := order s ++ [ID device] |})
    {| devices := ∅; order := [] |}.

Definition List (s : Store) : M (list Device) :=
  for_each (order s)
    (fun out id =>
       match devices s !! id with
       | None => ret out
       | Some device => do copyDevice <- copy_device device; ret (out ++ [copyDevice])
       end)
    [].

Definition Get (s : Store) (id : string) : M (option Device) :=
  match devices s !! id with
  | None => ret None
  | Some device => do copyDevice <- copy_device device; ret (Some copyDevice)
  end.

Definition not_found (id : string) : string := "device not found: " +:+ id.

Section Update.
Context `{GoRuntime}.

(** The loop of [Update] over a given enumeration of the entries. *)
Definition merge_entries (device : Device) (entries : list (string * any)) : M unit :=
  for_each entries
    (fun _ kv => map_assign (State device) kv.1 (normalizeValue (Kind device) kv.1 kv.2))
    tt.

(** [Update]; [inr msg] is the error [fmt.Errorf("device not found: %s", id)].
    The partial state is only ranged over, so it is passed as its entries
    ([None] for a nil map). *)
Definition Update (s : Store) (id : string) (state : option (gmap string any))
  : M (Device + string) :=
  match devices s !! id with
  | None => ret (inr (not_found id))
  | Some device =>
      do _u <- merge_entries device (range_entries state);
      do copyDevice <- copy_device device;
      ret (inl copyDevice)
  end.
End Update.

(** ** The catalog loader *)

(** What opening and decoding the catalog file gave.  The entries of a
    decoded catalog are [*Device]s: a null item of the YAML list decodes
    to a nil pointer, [None] here. *)
Inductive load_input :=
  | OpenFailed (err : string)
  | DecodeFailed (err : string)
  | Decoded (catalog : list (option Device)).

(** The validation loop of [loadDevices]; a nil [State] is replaced by a
    fresh empty map.  The loop reads [device.ID] with no nil check, so a
    nil entry it reaches is a nil pointer dereference.  On success the
    devices it returns are the entries themselves, none of them nil. *)
Fixpoint check_devices (catalog : list (option Device)) (seen : gset string)
  : M (list Device + string) :=
  match catalog with
  | [] => ret (inl [])
  | None :: _ => panic
  | Some device :: rest =>
      if String.eqb (ID device) "" || String.eqb (Name device) ""
         || String.eqb (Kind device) ""
      then ret (inr "device missing id, name, or kind"%string)
      else if decide (ID device ∈ seen)
      then ret (inr ("duplicate device id: " +:+ ID device))
      else
        do device' <- match State device with
                      | None => do l <- alloc (OMap ∅); ret (with_State device (Some l))
                      | Some _ => ret device
                      end;
        do r <- check_devices rest ({[ID device]} ∪ seen);
        ret match r with
            | inl checked => inl (device' :: checked)
            | inr err => inr err
            end
  end.

Definition loadDevices (input : load_input) : M (list Device + string) :=
  match input with
  | OpenFailed err => ret (inr err)
  | DecodeFailed err => ret (inr err)
  | Decoded catalog =>
      match catalog with
      | [] => ret (inr "no devices defined"%string)
      | _ => check_devices catalog ∅
      end
  end.

(** ** The hub *)

Definition conn := positive.

Record WSMessage := {
  msg_Type : string;
  msg_Device : option Device;
  msg_Devices : list Device;
  msg_Error : string
}.

Record WSSetMessage := {
  set_Type : string;
  set_ID : string;
  set_State : option (gmap string any)
}.



Definition error_message (e : string) : WSMessage :=
  {| msg_Type := "error"; msg_Device := None; msg_Devices := []; msg_Error := e |}.

(** The process: the store, the hub's clients and its [broadcast] channel
    (a queue, oldest first), and the transport: what has been written to
    which connection, and the connections on which a write fails. *)
Record World := {
  store : Store;
  clients : gset conn;
  broadcast : list Device;
  wire : list (conn * WSMessage);
  broken : gset conn
}.

Definition set_clients (w : World) (cs : gset conn) : World :=
  {| store := store w; clients := cs; broadcast := broadcast w;
     wire := wire w; broken := broken w |}.

Definition set_broadcast (w : World) (q : list Device) : World :=
  {| store := store w; clients := clients w; broadcast := q;
     wire := wire w; broken := broken w |}.

Definition set_wire (w : World) (out : list (conn * WSMessage)) : World :=
  {| store := store w; clients := clients w; broadcast := broadcast w;
     wire := out; broken := broken w |}.

(** [conn.WriteJSON(message)]: [true] when the write succeeded.  A write
    fails on a connection of [broken] and on no other: the messages
    written here are taken to be encodable (a state that holds a NaN is
    not, and is outside this model of the library call). *)
Definition WriteJSON (c : conn) (message : WSMessage) (w : World) : bool * World :=
  if decide (c ∈ broken w) then (false, w)
  else (true, set_wire w (wire w ++ [(c, message)])).

(** [h.broadcast <- device] *)
Definition send_broadcast (device : Device) (w : World) : World :=
  set_broadcast w (broadcast w ++ [device]).


Definition unregister (c : conn) (w : World) : World := set_clients w (clients w ∖ {[c]}).

Definition broadcastMessage (message : WSMessage) (w : World) : World :=
  foldl (fun w client =>
           let '(ok, w') := WriteJSON client message w in
           if ok then w' else set_clients w' (clients w' ∖ {[client]}))
        w (elements (clients w)).


(** A response of the HTTP API: status and JSON body. *)
Inductive http_body :=
  | ErrorBody (message : string)
  | DeviceBody (d : Device)
  | DevicesBody (ds : list Device).

Definition writeError (status : Z) (message : string) : Z * http_body :=
  (status, ErrorBody message).

Section Handlers.
Context `{GoRuntime}.


(** The body of the read loop of [HandleWS] on one decoded message. *)
Definition ws_message (c : conn) (incoming : WSSetMessage) (w : World) : M World :=
  if negb (String.eqb (set_Type incoming) "set")
  then ret (WriteJSON c (error_message "unsupported message type") w).2
  else if String.eqb (set_ID incoming) ""
  then ret (WriteJSON c (error_message "missing device id") w).2
  else
    do r <- Update (store w) (set_ID incoming) (set_State incoming);
    match r with
    | inr err => ret (WriteJSON c (error_message err) w).2
    | inl updated => ret (send_broadcast updated w)
    end.

Definition len (state : option (gmap string any)) : nat :=
  match state with
  | None => 0%nat
  | Some m => size m
  end.

(** The [PUT /api/devices/<id>] branch; [payload] is [None] when the
    body is not valid JSON, else the decoded [state] field. *)
Definition handle_put (id : string) (payload : option (option (gmap string any)))
    (w : World) : M (Z * http_body * World) :=
  if String.eqb id "" then ret (writeError 400 "missing device id", w)
  else
    match payload with
    | None => ret (writeError 400 "invalid json", w)
    | Some state =>
        if Nat.eqb (len state) 0 then ret (writeError 400 "missing state", w)
        else
          do r <- Update (store w) id state;
          match r with
          | inr err => ret (writeError 404 err, w)
          | inl updated => ret (200, DeviceBody updated, send_broadcast updated w)
          end
    end.

(** The [GET /api/devices/<id>] branch. *)
Definition handle_get (id : string) (w : World) : M (Z * http_body) :=
  if String.eqb id "" then ret (writeError 400 "missing device id")
  else
    do r <- Get (store w) id;
    match r with
    | None => ret (writeError 404 "device not found")
    | Some device => ret (200, DeviceBody device)
    end.

(** [main] up to serving: load, or stop with the fatal log line. *)
Definition startup (input : load_input) : M (World + string) :=
  do r <- loadDevices input;
  match r with
  | inr err => ret (inr ("failed to load devices: " +:+ err))
  | inl catalog =>
      do s <- NewStore catalog;
      ret (inl {| store := s; clients := ∅; broadcast := []; wire := []; broken := ∅ |})
  end.
End Handlers.

(** ** A concrete runtime for the closed examples

    The amd64 result of an unrepresentable conversion (the most negative
    integer); [ParseFloat] on decimal integer literals of 64 bits, which
    it reads as Go does; [TrimSpace] on ASCII text.  The theorems below
    hold for every runtime. *)
Definition is_ascii_space (c : ascii) : bool :=
  (Ascii.eqb c " " || (Nat.leb 9 (nat_of_ascii c) && Nat.leb (nat_of_ascii c) 13))%bool.

Fixpoint trim_left (s : string) : string :=
  match s with
  | String c s' => if is_ascii_space c then trim_left s' else s
  | EmptyString => EmptyString
  end.

Fixpoint trim_right (s : string) : string :=
  match s with
  | EmptyString => EmptyString
  | String c s' =>
      match trim_right s' with
      | EmptyString => if is_ascii_space c then EmptyString else String c EmptyString
      | t => String c t
      end
  end.

Definition parse_integer_literal (s : string) : option float64 :=
  match ParseInt s with
  | Some 0 => Some (S754_zero (String.prefix "-" s))
  | Some n => Some (f64_of_Z n)
  | None => None
  end.

Definition sample_runtime : GoRuntime := {|
  float_to_int_unrepresentable := fun _ => min_int64;
  ParseFloat := parse_integer_literal;
  TrimSpace := fun s => trim_right (trim_left s)
|}.

(** ** The policy table

    The rule a kind and key fall under, and the domain of the values a
    rule stores, stated apart from the code above. *)
Inductive rule := RLevel | RTemperature | RSwitch | RMode.

Definition one_of (s : string) (l : list string) : bool := existsb (String.eqb s) l.

Definition rule_of (kind key : string) : option rule :=
  if one_of kind ["blind"; "humidifier"]%string then
    if one_of key ["position"; "level"]%string then Some RLevel else None
  else if one_of kind ["thermostat"]%string then
    if one_of key ["temperature"]%string then Some RTemperature else None
  else if one_of kind ["toggle"; "lock"; "sensor"; "toaster"; "doors"; "vacuum"]%string then
    if one_of key ["on"; "open"; "locked"]%string then Some RSwitch
    else if one_of key ["mode"]%string then Some RMode
    else None
  else None.

Definition in_rule_domain (r : rule) (v : any) : bool :=
  match r, v with
  | RLevel, VInt n => (0 <=? n) && (n <=? 100)
  | RTemperature, VFloat64 f => SFleb (f64_of_Z 10) f && SFleb f (f64_of_Z 30)
  | RSwitch, VBool _ => true
  | RMode, _ => true
  | _, _ => false
  end.

Definition in_domain (kind key : string) (v : any) : bool :=
  match rule_of kind key with
  | Some r => in_rule_domain r v
  | None => true
  end.

(** The zero value of a rule's type, and the value the code falls back
    to when it cannot read the input. *)
Definition zero_value (r : rule) : any :=
  match r with
  | RLevel => VInt 0
  | RTemperature => VFloat64 (S754_zero false)
  | RSwitch => VBool false
  | RMode => VString ""
  end.

Definition fallback (r : rule) : any :=
  match r with
  | RLevel => VInt 0
  | RTemperature => VFloat64 (f64_of_Z 10)
  | RSwitch => VBool false
  | RMode => VString ""
  end.

Section Readings.
Context `{GoRuntime}.

(** Whether a rule's type switch has a case that reads the value. *)
Definition interpretable (r : rule) (v : any) : bool :=
  match r, v with
  | RLevel, (VInt _ | VInt64 _ | VFloat64 _ | VFloat32 _) => true
  | RLevel, VNumber s => bool_decide (is_Some (ParseInt s))
  | RTemperature, (VInt _ | VInt64 _ | VFloat64 _ | VFloat32 _) => true
  | RTemperature, VNumber s => bool_decide (is_Some (ParseFloat s))
  | RSwitch, (VBool _ | VString _ | VInt _ | VInt64 _ | VFloat64 _) => true
  | RMode, _ => true
  | _, _ => false
  end.

(** The inputs the temperature rule reads as NaN.  No JSON text decodes
    to one. *)
Definition reads_as_nan (v : any) : bool :=
  match v with
  | VFloat64 f | VFloat32 f => is_nan f
  | VNumber s => match ParseFloat s with Some f => is_nan f | None => false end
  | _ => false
  end.
End Readings.

(** What [encoding/json] decodes into an [interface{}]: nil, booleans,
    finite float64 numbers, strings, and references to arrays and objects. *)
Definition json_decoded (v : any) : bool :=
  match v with
  | VNil | VBool _ | VString _ | VRef _ => true
  | VFloat64 f => is_finite f
  | _ => false
  end.

(** ** Reading the store *)

(** What a [range] over the map [st] visits in heap [h]; a nil map reads
    as empty. *)
Definition contents (h : heap) (st : option addr) : option (gmap string any) :=
  match st with
  | None => Some ∅
  | Some l => match h !! l with
              | Some (OMap m) => Some m
              | _ => None
              end
  end.

(** The table behind a device's [State], when it is not nil. *)
Definition table (h : heap) (d : Device) : option (gmap string any) :=
  match State d with
  | Some l => contents h (Some l)
  | None => None
  end.

(** Two devices that agree on everything but the identity of their
    [State] map. *)
Definition same_fields (d d' : Device) : Prop :=
  ID d = ID d' /\ Name d = Name d' /\ Kind d = Kind d' /\ Room d = Room d'.

(** The shape [NewStore] establishes: every stored device has a table of
    its own. *)
Definition store_wf (s : Store) (h : heap) : Prop :=
  (forall id d, devices s !! id = Some d -> is_Some (table h d))
  /\ (forall id1 id2 d1 d2,
        devices s !! id1 = Some d1 -> devices s !! id2 = Some d2 ->
        State d1 = State d2 -> id1 = id2).

(** Every stored value under a rule is in the rule's domain. *)
Definition table_in_domain (kind : string) (m : gmap string any) : Prop :=
  forall key v, m !! key = Some v -> in_domain kind key v = true.

Definition store_in_domain (s : Store) (h : heap) : Prop :=
  forall id d m, devices s !! id = Some d -> table h d = Some m ->
                 table_in_domain (Kind d) m.

Section Merge.
Context `{GoRuntime}.

(** What the loop of [Update] leaves in the device's table, as one map:
    a supplied key maps to what [normalizeValue] gives for the supplied
    value, any other key keeps its prior value.  The contract's side of
    the merge is [policy_merge]. *)
Definition normalized_merge (kind : string) (prior : gmap string any)
    (state : option (gmap string any)) : gmap string any :=
  map_imap (fun key v => Some (normalizeValue kind key v)) (default ∅ state) ∪ prior.

(** The calls a client of the store can make. *)
Inductive call :=
  | CallUpdate (id : string) (state : option (gmap string any))
  | CallGet (id : string)
  | CallList.

Definition run_call (s : Store) (c : call) : M unit :=
  match c with
  | CallUpdate id state => do _r <- Update s id state; ret tt
  | CallGet id => do _r <- Get s id; ret tt
  | CallList => do _r <- List s; ret tt
  end.

Definition run_calls (s : Store) (cs : list call) : M unit :=
  for_each cs (fun _ c => run_call s c) tt.

(** No value of the call reads as NaN. *)
Definition nan_free (c : call) : bool :=
  match c with
  | CallUpdate _ state => forallb (fun kv => negb (reads_as_nan kv.2)) (range_entries state)
  | _ => true
  end.
End Merge.

(** ** Snapshots and loaded devices *)

(** A snapshot of a stored device: the same fields, a table with the same
    entries, at an address that was not in use before the call. *)
Definition snapshot_of (h h' : heap) (d snap : Device) : Prop :=
  same_fields d snap
  /\ (forall m, table h d = Some m -> table h' snap = Some m)
  /\ exists l, State snap = Some l /\ l ∉ dom h.

(** A device read from the catalog in heap [h], as it is held in heap [h']:
    the same fields, a table with the entries the catalog gave it. *)
Definition loaded_from (h h' : heap) (d d' : Device) : Prop :=
  same_fields d d' /\ forall m, contents h (State d) = Some m -> table h' d' = Some m.

Definition fields_present (d : Device) : Prop :=
  ID d <> ""%string /\ Name d <> ""%string /\ Kind d <> ""%string.

(** ** Closed examples *)

(** A computation started on the empty heap. *)
Definition run {A} (c : M A) : option A := option_map fst (c ∅).

Definition blind1 : Device :=
  {| ID := "blind1"; Name := "Blind"; Kind := "blind"; Room := "den"; State := None |}.

Definition thermo1 : Device :=
  {| ID := "thermo1"; Name := "Thermostat"; Kind := "thermostat"; Room := "hall";
     State := None |}.

Definition lamp1 : Device :=
  {| ID := "lamp1"; Name := "Lamp"; Kind := "toggle"; Room := "den"; State := None |}.

(** Load a catalog of one device, update one key of it, and read the key
    back through [Get]. *)
Definition stored_after `{GoRuntime} (d : Device) (key : string) (v : any) : option any :=
  mjoin (run (do r <- startup (Decoded [Some d]);
              match r with
              | inr _ => ret None
              | inl w =>
                  do _u <- Update (store w) (ID d) (Some {[key := v]});
                  do got <- Get (store w) (ID d);
                  match got with
                  | Some {| State := Some l |} => do m <- load_map l; ret (m !! key)
                  | _ => ret None
                  end
              end)).

(** ** Definitions used by the statements below *)

(** What start-up gives on a catalog it accepts. *)
Definition started (catalog : list Device) (h0 : heap) (w : World) (h1 : heap) : Prop :=
  store_wf (store w) h1 /\ h0 ⊆ h1
  /\ order (store w) = ID <$> catalog
  /\ clients w = ∅ /\ broadcast w = [] /\ wire w = []
  /\ (forall id d', devices (store w) !! id = Some d' ->
        exists d, d ∈ catalog /\ ID d = id /\ loaded_from h0 h1 d d')
  /\ (forall d, d ∈ catalog -> is_Some (devices (store w) !! ID d)).

(** Rounding on a grid: [k/10] plus one half truncates, within 64 bits, to
    an integer that clamps like the half-up rounding of [k/10]. *)
Definition round_check (k : Z) : bool :=
  match SFtrunc (f64_add (f64_ratio k 10) f64_half) with
  | Some z => in_int64 z && (clampInt z 0 100 =? Z.max 0 (Z.min 100 ((k + 5) / 10)))
  | None => false
  end.


(** A catalog entry whose state gives a blind the position 150, and the
    heap holding that state. *)
Definition heap_150 : heap := {[ 1%positive := OMap {[ "position"%string := VInt 150 ]} ]}.

Definition blind_at_150 : Device :=
  {| ID := "blind1"; Name := "Blind"; Kind := "blind"; Room := "den";
     State := Some 1%positive |}.

(** The position [Get] reports right after loading that catalog. *)
Definition position_after_load : option any :=
  match (do r <- startup (Decoded [Some blind_at_150]);
         match r with
         | inr _ => ret None
         | inl w =>
             do got <- Get (store w) "blind1";
             match got with
             | Some {| State := Some l |} => do m <- load_map l; ret (m !! "position"%string)
             | _ => ret None
             end
         end) heap_150 with
  | Some (r, _) => r
  | None => None
  end.

(** A store with one blind at position 30, for the closed instances. *)
Definition demo_heap : heap := {[ 1%positive := OMap {[ "position"%string := VInt 30 ]} ]}.

Definition demo_store : Store :=
  {| devices := {[ "blind1"%string := with_State blind1 (Some 1%positive) ]};
     order := ["blind1"%string] |}.

(** The devices a call hands back to its caller. *)
Definition returned `{GoRuntime} (s : Store) (c : call) : M (list Device) :=
  match c with
  | CallUpdate id state =>
      do r <- Update s id state;
      ret match r with inl updated => [updated] | inr _ => [] end
  | CallGet id =>
      do r <- Get s id;
      ret match r with Some got => [got] | None => [] end
  | CallList => List s
  end.

Definition set_message (id : string) (state : option (gmap string any)) : WSSetMessage :=
  {| set_Type := "set"; set_ID := id; set_State := state |}.

(** What a [Get] of device [id] shows under [key], one level into a nested
    object. *)
Definition get_nested (s : Store) (id key inner : string) : M (option any) :=
  do got <- Get s id;
  match got with
  | Some {| State := Some l |} =>
      do m <- load_map l;
      match m !! key with
      | Some (VRef r) => do nested <- load_map r; ret (nested !! inner)
      | _ => ret None
      end
  | _ => ret None
  end.

(** A caller's [snap.State[key].(map[string]interface{})[inner] = v]. *)
Definition write_nested (snap : Device) (key inner : string) (v : any) : M unit :=
  match State snap with
  | Some l =>
      do m <- load_map l;
      match m !! key with
      | Some (VRef r) => map_assign (Some r) inner v
      | _ => ret tt
      end
  | None => ret tt
  end.

(** A lamp is given the decoded object [{"at": 7}] under the key
    [schedule]; a caller takes a snapshot with [Get] and writes 9 into the
    object it finds there.  The pair is what further [Get]s show before
    and after that write. *)
Definition nested_write_through `{GoRuntime} : option (option any * option any) :=
  run (do inner <- alloc (OMap {[ "at"%string := VInt 7 ]});
       do r <- startup (Decoded [Some lamp1]);
       match r with
       | inr _ => ret (None, None)
       | inl w =>
           do _u <- Update (store w) "lamp1" (Some {[ "schedule"%string := VRef inner ]});
           do got <- Get (store w) "lamp1";
           match got with
           | None => ret (None, None)
           | Some snap =>
               do before <- get_nested (store w) "lamp1" "schedule" "at";
               do _w <- write_nested snap "schedule" "at" (VInt 9);
               do after <- get_nested (store w) "lamp1" "schedule" "at";
               ret (before, after)
           end
       end).

(** A world around [demo_store]: two clients, the second with a broken
    connection. *)
Definition demo_world : World :=
  {| store := demo_store; clients := {[1%positive; 2%positive]}; broadcast := [];
     wire := []; broken := {[2%positive]} |}.

Definition demo_device : Device := with_State blind1 (Some 1%positive).

(** ** Definitions used by the further properties *)

(** A string with its ASCII capitals lowered. *)
Fixpoint lower_string (s : string) : string :=
  match s with
  | EmptyString => EmptyString
  | String c s' => String (to_lower c) (lower_string s')
  end.

(** A store with a blind at position 30 and a thermostat at 21 degrees. *)
Definition thermo_device : Device := with_State thermo1 (Some 2%positive).

Definition home_heap : heap :=
  {[ 1%positive := OMap {[ "position"%string := VInt 30 ]};
     2%positive := OMap {[ "temperature"%string := VFloat64 (f64_of_Z 21) ]} ]}.

Definition home_store : Store :=
  {| devices := {[ "blind1"%string := demo_device; "thermo1"%string := thermo_device ]};
     order := ["blind1"%string; "thermo1"%string] |}.

Definition home_world : World :=
  {| store := home_store; clients := {[1%positive; 2%positive]}; broadcast := [];
     wire := []; broken := {[2%positive]} |}.

(** The handler of [/api/devices]. *)
Definition handle_devices (method : string) (w : World) : M (Z * http_body) :=
  if negb (String.eqb method "GET") then ret (writeError 405 "method not allowed")
  else do ds <- List (store w); ret (200, DevicesBody ds).

(** The handler of [/api/devices/<id>]: the id check, then the switch on
    the method; [payload] is what decoding the body gives, looked at by
    the PUT branch only. *)
Definition handle_device `{GoRuntime} (method id : string)
    (payload : option (option (gmap string any))) (w : World)
  : M (Z * http_body * World) :=
  if String.eqb id "" then ret (writeError 400 "missing device id", w)
  else if String.eqb method "GET" then do r <- handle_get id w; ret (r, w)
  else if String.eqb method "PUT" then handle_put id payload w
  else ret (writeError 405 "method not allowed", w).

(** What [conn.ReadJSON(&incoming)] gives the read loop of [HandleWS]: an
    error (the connection is closed, or the frame does not decode into a
    [WSSetMessage]), or a decoded message. *)
Inductive read_result :=
  | ReadFailed
  | Received (incoming : WSSetMessage).

(** One turn of the read loop of [HandleWS].  On a read error the handler
    returns and its deferred [unregister] runs; [false] says that the
    loop has ended.  A decoded message is handled and the loop goes on. *)
Definition ws_read `{GoRuntime} (c : conn) (r : read_result) (w : World)
  : M (World * bool) :=
  match r with
  | ReadFailed => ret (unregister c w, false)
  | Received incoming => do w' <- ws_message c incoming w; ret (w', true)
  end.


(** ** The policy table, value by value

    What the policy table of the contract prescribes for a supplied
    value, written from the table and not from [normalizeValue]:

    - position, level of a blind or humidifier: the nearest integer,
      clamped to 0..100;
    - temperature of a thermostat: clamped to 10.0..30.0;
    - on, open, locked of the switch kinds: true for the true literal, a
      non-zero number, or the strings true, 1, on in any capitalisation,
      else false;
    - mode of the switch kinds: trimmed when it is text, else as it is;
    - any other key: as it is. *)

(** The integer nearest to a finite float, a tie going up: the floor of
    the float's exact value plus one half, in exact arithmetic. *)
Definition nearest_integer (f : float64) : option Z :=
  match f with
  | S754_zero _ => Some 0
  | S754_finite s m e =>
      let n := cond_Zopp s (Zpos m) in
      Some (if 0 <=? e then n * 2 ^ e else (2 * n + 2 ^ (- e)) / 2 ^ (- e + 1))
  | _ => None
  end.








(** The float64 just below one half, and the float64 of ten to the
    nineteenth: both are what [encoding/json] decodes the texts
    0.49999999999999994 and 1e19 to. *)
Definition below_half : float64 := S754_finite false (2 ^ 53 - 1) (-54).

Definition ten_to_19 : float64 := f64_of_Z (10 ^ 19).

(** * Properties *)

(** ** Floating point *)

Lemma SFcompare_antisym (x y : spec_float) (c : comparison) :
  SFcompare x y = Some c -> SFcompare y x = Some (CompOpp c).
Proof.
  destruct x as [sx|sx| |sx mx ex], y as [sy|sy| |sy my ey]; simpl;
    try discriminate;
    try (intros [= <-]; repeat match goal with b : bool |- _ => destruct b end; reflexivity).
  intros [= <-]. f_equal.
  destruct sx, sy; simpl; try reflexivity.
  - rewrite (Z.compare_antisym ex ey).
    destruct (ex ?= ey) eqn:E; simpl; try reflexivity.
    rewrite (Pos.compare_cont_antisym _ _ Eq). simpl.
    now rewrite CompOpp_involutive.
  - rewrite (Z.compare_antisym ex ey).
    destruct (ex ?= ey) eqn:E; simpl; try reflexivity.
    now rewrite (Pos.compare_cont_antisym _ _ Eq).
Qed.

Lemma SFcompare_not_nan (x y : spec_float) :
  is_nan x = false -> is_nan y = false -> exists c, SFcompare x y = Some c.
Proof.
  destruct x, y; simpl; try discriminate; eauto.
Qed.

Lemma SFltb_false_SFleb (x y : spec_float) :
  is_nan x = false -> is_nan y = false -> SFltb x y = false -> SFleb y x = true.
Proof.
  intros Hx Hy. unfold SFltb, SFleb.
  destruct (SFcompare_not_nan x y Hx Hy) as [c Hc].
  rewrite Hc, (SFcompare_antisym _ _ _ Hc).
  destruct c; simpl; congruence.
Qed.

Lemma SFleb_not_nan (x y : spec_float) :
  SFleb x y = true -> is_nan x = false /\ is_nan y = false.
Proof.
  unfold SFleb. destruct x, y; simpl; try discriminate; auto.
Qed.

Lemma SFleb_refl (x : spec_float) : is_nan x = false -> SFleb x x = true.
Proof.
  unfold SFleb. destruct x as [s|s| |s m e]; simpl; try discriminate; try reflexivity.
  - now destruct s.
  - intros _. rewrite Z.compare_refl.
    destruct s; rewrite Pos.compare_cont_refl; reflexivity.
Qed.

(** [clampFloat] lands between its bounds unless it is given NaN. *)
Lemma clampFloat_bounds (v lo hi : float64) :
  is_nan v = false -> SFleb lo hi = true ->
  SFleb lo (clampFloat v lo hi) = true /\ SFleb (clampFloat v lo hi) hi = true.
Proof.
  intros Hv Hle. destruct (SFleb_not_nan _ _ Hle) as [Hlo Hhi].
  unfold clampFloat.
  destruct (SFltb v lo) eqn:E1.
  - split; [now apply SFleb_refl | exact Hle].
  - destruct (SFltb hi v) eqn:E2.
    + split; [exact Hle | now apply SFleb_refl].
    + split; now apply SFltb_false_SFleb.
Qed.

Lemma clampFloat_nan (lo hi : float64) : clampFloat S754_nan lo hi = S754_nan.
Proof. unfold clampFloat, SFltb. now destruct lo, hi. Qed.

(** Rounding a non-negative mantissa never gives NaN. *)
Lemma shr_1_nonneg (mrs : shr_record) : 0 <= shr_m mrs -> 0 <= shr_m (shr_1 mrs).
Proof.
  destruct mrs as [m r s]. simpl.
  destruct m as [|p|p]; simpl; try lia; destruct p; simpl; lia.
Qed.

Lemma iter_pos_shr_1_nonneg (p : positive) (mrs : shr_record) :
  0 <= shr_m mrs -> 0 <= shr_m (SpecFloat.iter_pos shr_1 p mrs).
Proof.
  revert mrs. induction p as [p IH|p IH|]; intros mrs Hm; simpl.
  - apply IH, IH, shr_1_nonneg, Hm.
  - apply IH, IH, Hm.
  - apply shr_1_nonneg, Hm.
Qed.

Lemma shr_fexp_nonneg (prec emax m e : Z) (l : location) :
  0 <= m -> 0 <= shr_m (shr_fexp prec emax m e l).1.
Proof.
  intros Hm. unfold shr_fexp, shr.
  assert (H0 : 0 <= shr_m (shr_record_of_loc m l)) by (destruct l as [|[]]; exact Hm).
  destruct (fexp prec emax (Zdigits2 m + e) - e); simpl; auto.
  now apply iter_pos_shr_1_nonneg.
Qed.

Lemma round_nearest_even_nonneg (m : Z) (l : location) :
  0 <= m -> 0 <= round_nearest_even m l.
Proof.
  intros Hm. destruct l as [|[]]; simpl; try lia.
  destruct (Z.even m); lia.
Qed.

Lemma binary_round_aux_not_nan (prec emax : Z) (sx : bool) (mx ex : Z) (lx : location) :
  0 <= mx -> is_nan (binary_round_aux prec emax sx mx ex lx) = false.
Proof.
  intros Hm. unfold binary_round_aux.
  pose proof (shr_fexp_nonneg prec emax mx ex lx Hm) as H1.
  destruct (shr_fexp prec emax mx ex lx) as [mrs' e']. simpl in H1.
  pose proof (shr_fexp_nonneg prec emax _ e' loc_Exact
                (round_nearest_even_nonneg _ (loc_of_shr_record mrs') H1)) as H2.
  destruct (shr_fexp prec emax _ e' loc_Exact) as [mrs'' e'']. simpl in H2.
  destruct (shr_m mrs'') as [|p|p]; try reflexivity; try lia.
  now destruct (e'' <=? emax - prec).
Qed.

Lemma binary_normalize_not_nan (prec emax m e : Z) (sz : bool) :
  is_nan (binary_normalize prec emax m e sz) = false.
Proof.
  destruct m as [|p|p]; simpl; try reflexivity;
    unfold binary_round;
    destruct (shl_align _ _ _) as [mz ez];
    apply binary_round_aux_not_nan; lia.
Qed.

Lemma f64_of_Z_not_nan (n : Z) : is_nan (f64_of_Z n) = false.
Proof. apply binary_normalize_not_nan. Qed.

Lemma f64_of_f32_not_nan (f : float32) : is_nan f = false -> is_nan (f64_of_f32 f) = false.
Proof.
  destruct f; simpl; try discriminate; try reflexivity.
  intros _. apply binary_normalize_not_nan.
Qed.

Lemma clampInt_bounds (v lo hi : Z) : lo <= hi -> lo <= clampInt v lo hi <= hi.
Proof.
  intros Hle. unfold clampInt.
  destruct (Z.ltb_spec v lo); [lia|].
  rewrite Z.gtb_ltb. destruct (Z.ltb_spec hi v); lia.
Qed.

Lemma clampInt_spec (v lo hi : Z) : lo <= hi -> clampInt v lo hi = Z.max lo (Z.min hi v).
Proof.
  intros Hle. unfold clampInt.
  destruct (Z.ltb_spec v lo); [lia|].
  rewrite Z.gtb_ltb. destruct (Z.ltb_spec hi v); lia.
Qed.

(** ** Normalization *)

Ltac case_eqb :=
  repeat (match goal with
          | |- context [String.eqb ?a ?b] => destruct (String.eqb a b)
          end; simpl; try discriminate; auto).

Lemma rule_of_level (kind key : string) :
  rule_of kind key = Some RLevel ->
  level_kind kind = true /\ (String.eqb key "position" || String.eqb key "level") = true.
Proof. unfold rule_of, one_of, level_kind. simpl. case_eqb. Qed.

Lemma rule_of_temperature (kind key : string) :
  rule_of kind key = Some RTemperature ->
  level_kind kind = false /\ String.eqb kind "thermostat" = true
  /\ String.eqb key "temperature" = true.
Proof. unfold rule_of, one_of, level_kind. simpl. case_eqb. Qed.

Lemma rule_of_switch (kind key : string) :
  rule_of kind key = Some RSwitch ->
  level_kind kind = false /\ String.eqb kind "thermostat" = false
  /\ switch_kind kind = true
  /\ (String.eqb key "on" || String.eqb key "open" || String.eqb key "locked") = true.
Proof. unfold rule_of, one_of, level_kind, switch_kind. simpl. case_eqb. Qed.

Lemma rule_of_none (kind key : string) (v : any) `{GoRuntime} :
  rule_of kind key = None -> normalizeValue kind key v = v.
Proof. unfold rule_of, one_of, normalizeValue, level_kind, switch_kind. simpl. case_eqb. Qed.
Section NormalizationFacts.
Context `{GoRuntime}.

Lemma normalize_level (kind key : string) (v : any) :
  rule_of kind key = Some RLevel ->
  normalizeValue kind key v = VInt (clampToInt v 0 100).
Proof.
  intros [Hk Hkey]%rule_of_level. unfold normalizeValue. now rewrite Hk, Hkey.
Qed.

Lemma normalize_temperature (kind key : string) (v : any) :
  rule_of kind key = Some RTemperature ->
  normalizeValue kind key v = VFloat64 (clampToFloat v (f64_of_Z 10) (f64_of_Z 30)).
Proof.
  intros (Hl & Hk & Hkey)%rule_of_temperature. unfold normalizeValue.
  now rewrite Hl, Hk, Hkey.
Qed.

Lemma normalize_switch (kind key : string) (v : any) :
  rule_of kind key = Some RSwitch ->
  normalizeValue kind key v = VBool (toBool v).
Proof.
  intros (Hl & Ht & Hk & Hkey)%rule_of_switch. unfold normalizeValue.
  now rewrite Hl, Ht, Hk, Hkey.
Qed.

Lemma clampToInt_bounds (v : any) : 0 <= clampToInt v 0 100 <= 100.
Proof.
  destruct v; simpl; try lia; try (apply clampInt_bounds; lia).
  destruct (ParseInt s); [apply clampInt_bounds|]; lia.
Qed.

Lemma clampToFloat_reads_nan (v : any) (lo hi : float64) :
  reads_as_nan v = true -> clampToFloat v lo hi = S754_nan.
Proof.
  destruct v; simpl; try discriminate.
  - destruct f; try discriminate. intros _. apply clampFloat_nan.
  - destruct f; try discriminate. intros _. apply clampFloat_nan.
  - destruct (ParseFloat s) as [f|]; [|discriminate].
    destruct f; try discriminate. intros _. apply clampFloat_nan.
Qed.

Lemma clampToFloat_bounds (v : any) (lo hi : float64) :
  reads_as_nan v = false -> SFleb lo hi = true ->
  SFleb lo (clampToFloat v lo hi) = true /\ SFleb (clampToFloat v lo hi) hi = true.
Proof.
  intros Hv Hle. destruct (SFleb_not_nan _ _ Hle) as [Hlo Hhi].
  assert (Hmin : SFleb lo lo = true /\ SFleb lo hi = true)
    by (split; [now apply SFleb_refl | exact Hle]).
  destruct v; simpl in *; try exact Hmin.
  - apply clampFloat_bounds; [apply f64_of_Z_not_nan | exact Hle].
  - apply clampFloat_bounds; [apply f64_of_Z_not_nan | exact Hle].
  - now apply clampFloat_bounds.
  - apply clampFloat_bounds; [now apply f64_of_f32_not_nan | exact Hle].
  - destruct (ParseFloat s) as [f|]; [now apply clampFloat_bounds | exact Hmin].
Qed.

(** Whatever is supplied for a key under a rule, what is stored is in the
    rule's domain, NaN apart. *)
Lemma normalize_in_domain (kind key : string) (v : any) :
  reads_as_nan v = false -> in_domain kind key (normalizeValue kind key v) = true.
Proof.
  intros Hv. unfold in_domain.
  destruct (rule_of kind key) as [[]|] eqn:Er; [| | | |reflexivity].
  - rewrite (normalize_level _ _ _ Er). simpl.
    pose proof (clampToInt_bounds v). apply andb_true_iff. split; lia.
  - rewrite (normalize_temperature _ _ _ Er). simpl.
    apply andb_true_iff. now apply clampToFloat_bounds.
  - now rewrite (normalize_switch _ _ _ Er).
  - reflexivity.
Qed.
End NormalizationFacts.


(** Values decoded from JSON never read as NaN. *)
Lemma json_decoded_nan_free `{GoRuntime} (v : any) :
  json_decoded v = true -> reads_as_nan v = false.
Proof. destruct v; simpl; try discriminate; try reflexivity. now destruct f. Qed.

Example toBool_true :
  toBool (VString "On") = true /\ toBool (VString "1") = true
  /\ toBool (VString "TRUE") = true /\ toBool (VInt 1) = true
  /\ toBool (VFloat64 (f64_of_Z 1)) = true /\ toBool (VBool true) = true.
Proof. repeat split; reflexivity. Qed.

Example toBool_false :
  toBool (VInt 0) = false /\ toBool (VFloat64 (f64_of_Z 0)) = false
  /\ toBool (VString "off") = false /\ toBool (VBool false) = false
  /\ toBool VNil = false /\ toBool (VRef 1%positive) = false.
Proof. repeat split; reflexivity. Qed.

Example ParseInt_examples :
  ParseInt "42" = Some 42 /\ ParseInt "-5" = Some (-5) /\ ParseInt "+7" = Some 7
  /\ ParseInt "42.6" = None /\ ParseInt "" = None /\ ParseInt "-" = None
  /\ ParseInt "9223372036854775807" = Some max_int64
  /\ ParseInt "9223372036854775808" = None
  /\ ParseInt "-9223372036854775808" = Some min_int64.
Proof. repeat split; reflexivity. Qed.

(** A json.Number is read with [Int64] under the level rule and with
    [Float64] under the temperature rule. *)
Example json_number_level `{GoRuntime} :
  normalizeValue "blind" "position" (VNumber "42") = VInt 42
  /\ normalizeValue "blind" "position" (VNumber "150") = VInt 100
  /\ normalizeValue "blind" "position" (VNumber "42.6") = VInt 0.
Proof. repeat split; reflexivity. Qed.

(** Two edges of [int(number+0.5)]: the float64 just below one half is
    rounded up to 1 (the sum is rounded to 1.0), and a float64 beyond 64
    bits is clamped from whatever the platform's conversion gives. *)
Example level_edges `{GoRuntime} :
  normalizeValue "blind" "position" (VFloat64 (S754_finite false (2 ^ 53 - 1) (-54)))
  = VInt 1
  /\ normalizeValue "blind" "position" (VFloat64 (f64_of_Z (10 ^ 19)))
     = VInt (clampInt (float_to_int_unrepresentable
                         (f64_add (f64_of_Z (10 ^ 19)) f64_half)) 0 100).
Proof. split; reflexivity. Qed.

(** ** Maps built by a loop of assignments *)

Lemma foldl_assign_lookup {A B} (f : string -> A -> B) (l : list (string * A))
    (acc : gmap string B) (key : string) :
  NoDup l.*1 ->
  foldl (fun m kv => <[kv.1 := f kv.1 kv.2]> m) acc l !! key
  = match (list_to_map l : gmap string A) !! key with
    | Some v => Some (f key v)
    | None => acc !! key
    end.
Proof.
  revert acc. induction l as [|[k v] l IH]; intros acc Hnd; simpl.
  - now rewrite lookup_empty.
  - inversion Hnd as [|? ? Hk Hnd']; subst. rewrite (IH _ Hnd').
    destruct (decide (k = key)) as [->|Hne].
    + rewrite (not_elem_of_list_to_map_1 l key Hk).
      now rewrite !lookup_insert_eq.
    + rewrite (lookup_insert_ne (list_to_map l) k key) by done.
      destruct (list_to_map l !! key); [done|]. now rewrite lookup_insert_ne.
Qed.

Lemma copy_loop_id (m : gmap string any) :
  foldl (fun copyMap kv => <[kv.1 := kv.2]> copyMap) ∅ (map_to_list m) = m.
Proof.
  apply map_eq. intros key.
  rewrite (foldl_assign_lookup (fun _ v => v)) by apply NoDup_fst_map_to_list.
  rewrite list_to_map_to_list. destruct (m !! key); [done | apply lookup_empty].
Qed.

Section StoreFacts.
Context `{GoRuntime}.

Lemma normalized_merge_lookup (kind : string) (prior : gmap string any)
    (state : option (gmap string any)) (key : string) :
  normalized_merge kind prior state !! key
  = match default ∅ state !! key with
    | Some v => Some (normalizeValue kind key v)
    | None => prior !! key
    end.
Proof.
  unfold normalized_merge. rewrite lookup_union, map_lookup_imap.
  destruct (default ∅ state !! key); simpl.
  - now destruct (prior !! key).
  - now destruct (prior !! key).
Qed.

(** The loop of [Update] computes the normalized merge, in whatever
    order the entries are visited. *)
Lemma merge_loop (kind : string) (prior : gmap string any)
    (state : option (gmap string any)) (entries : list (string * any)) :
  entries ≡ₚ range_entries state ->
  foldl (fun m kv => <[kv.1 := normalizeValue kind kv.1 kv.2]> m) prior entries
  = normalized_merge kind prior state.
Proof.
  intros Hperm. apply map_eq. intros key.
  assert (Hnd : NoDup (range_entries state).*1).
  { destruct state; simpl; [apply NoDup_fst_map_to_list | constructor]. }
  assert (Hnd' : NoDup entries.*1) by now rewrite Hperm.
  rewrite (foldl_assign_lookup (normalizeValue kind)) by done.
  rewrite normalized_merge_lookup.
  rewrite (list_to_map_proper entries (range_entries state) Hnd' Hperm).
  destruct state as [m|]; simpl; [now rewrite list_to_map_to_list | done].
Qed.

(** *** The heap operations *)

Lemma dom_insert_present (h : heap) (l : addr) (o : object) :
  is_Some (h !! l) -> dom (<[l := o]> h) = dom h.
Proof.
  intros Hl. rewrite dom_insert_L.
  now apply subseteq_union_1_L, singleton_subseteq_l, elem_of_dom.
Qed.

Lemma bind_ok {A B} (c : M A) (k : A -> M B) (h h' : heap) (a : A) :
  c h = Some (a, h') -> bind c k h = k a h'.
Proof. intros Hc. unfold bind. now rewrite Hc. Qed.

Lemma bind_panic {A B} (c : M A) (k : A -> M B) (h : heap) :
  c h = None -> bind c k h = None.
Proof. intros Hc. unfold bind. now rewrite Hc. Qed.

Lemma map_assign_ok (h : heap) (l : addr) (m : gmap string any) (k : string) (v : any) :
  h !! l = Some (OMap m) ->
  map_assign (Some l) k v h = Some (tt, <[l := OMap (<[k := v]> m)]> h).
Proof.
  intros Hl. unfold map_assign, bind, load_map, store_map. now rewrite Hl, Hl.
Qed.

Lemma fresh_lookup (h : heap) : h !! fresh (dom h) = None.
Proof. apply not_elem_of_dom, is_fresh. Qed.

Lemma copyState_ok (h : heap) (st : option addr) (m : gmap string any) :
  contents h st = Some m ->
  copyState st h = Some (fresh (dom h), <[fresh (dom h) := OMap m]> h).
Proof.
  destruct st as [l|]; simpl.
  - unfold bind, load_map.
    destruct (h !! l) as [[m'|]|]; try discriminate.
    intros [= ->]. unfold alloc. now rewrite copy_loop_id.
  - now intros [= <-].
Qed.

Lemma copy_device_ok (h : heap) (d : Device) (m : gmap string any) :
  contents h (State d) = Some m ->
  copy_device d h
  = Some (with_State d (Some (fresh (dom h))), <[fresh (dom h) := OMap m]> h).
Proof.
  intros Hc. unfold copy_device, bind. now rewrite (copyState_ok _ _ _ Hc).
Qed.

Lemma merge_entries_ok (d : Device) (l : addr) (entries : list (string * any)) :
  State d = Some l ->
  forall (h : heap) (m0 : gmap string any),
    h !! l = Some (OMap m0) ->
    merge_entries d entries h
    = Some (tt, <[l := OMap (foldl (fun m kv => <[kv.1 := normalizeValue (Kind d) kv.1 kv.2]> m)
                               m0 entries)]> h).
Proof.
  intros Hst. unfold merge_entries. rewrite Hst.
  induction entries as [|[k v] entries IH]; intros h m0 Hl; cbn [for_each foldl].
  - unfold ret. now rewrite insert_id.
  - erewrite bind_ok by (apply map_assign_ok; exact Hl).
    erewrite IH by apply lookup_insert_eq.
    now rewrite insert_insert_eq.
Qed.

(** [Update] on a present device, in one step: the table becomes the
    normalized merge, and the result is a copy of it at a new address. *)
Lemma Update_ok (s : Store) (h : heap) (id : string) (state : option (gmap string any))
    (d : Device) (l : addr) (m0 : gmap string any) :
  devices s !! id = Some d -> State d = Some l -> h !! l = Some (OMap m0) ->
  let m' := normalized_merge (Kind d) m0 state in
  Update s id state h
  = Some (inl (with_State d (Some (fresh (dom h)))),
          <[fresh (dom h) := OMap m']> (<[l := OMap m']> h)).
Proof.
  intros Hd Hst Hl m'. unfold Update. rewrite Hd. unfold bind at 1.
  rewrite (merge_entries_ok d l _ Hst h m0 Hl).
  rewrite (merge_loop _ _ state) by done. fold m'.
  erewrite bind_ok.
  - unfold ret. rewrite <- (dom_insert_present h l (OMap m')) by (rewrite Hl; eauto).
    reflexivity.
  - apply copy_device_ok. rewrite Hst. simpl. now rewrite lookup_insert_eq.
Qed.

Lemma Update_missing (s : Store) (h : heap) (id : string) (state : option (gmap string any)) :
  devices s !! id = None -> Update s id state h = Some (inr (not_found id), h).
Proof. intros Hd. unfold Update. now rewrite Hd. Qed.

Lemma Get_ok (s : Store) (h : heap) (id : string) (d : Device) (m : gmap string any) :
  devices s !! id = Some d -> table h d = Some m ->
  Get s id h
  = Some (Some (with_State d (Some (fresh (dom h)))), <[fresh (dom h) := OMap m]> h).
Proof.
  intros Hd Ht. unfold Get. rewrite Hd. unfold bind.
  rewrite (copy_device_ok _ d m); [done|].
  unfold table in Ht. now destruct (State d).
Qed.

Lemma Get_missing (s : Store) (h : heap) (id : string) :
  devices s !! id = None -> Get s id h = Some (None, h).
Proof. intros Hd. unfold Get. now rewrite Hd. Qed.

(** *** Frames: what an allocation leaves alone *)

Lemma alloc_extends (h : heap) (o : object) : h ⊆ <[fresh (dom h) := o]> h.
Proof. apply insert_subseteq, fresh_lookup. Qed.

Lemma contents_weaken (h h' : heap) (st : option addr) (m : gmap string any) :
  h ⊆ h' -> contents h st = Some m -> contents h' st = Some m.
Proof.
  intros Hsub. destruct st as [l|]; simpl; [|done].
  destruct (h !! l) as [o|] eqn:El; [|done].
  now rewrite (lookup_weaken _ _ _ _ El Hsub).
Qed.

Lemma table_weaken (h h' : heap) (d : Device) (m : gmap string any) :
  h ⊆ h' -> table h d = Some m -> table h' d = Some m.
Proof.
  unfold table. destruct (State d); [apply contents_weaken | done].
Qed.

Lemma table_Some_dom (h : heap) (d : Device) :
  is_Some (table h d) -> exists l, State d = Some l /\ l ∈ dom h.
Proof.
  unfold table. destruct (State d) as [l|]; simpl; [|intros [? [=]]].
  intros [m Hm]. exists l. split; [done|].
  apply elem_of_dom. destruct (h !! l); [eauto | done].
Qed.

Lemma table_with_State (h : heap) (d : Device) (l : addr) :
  table h (with_State d (Some l)) = contents h (Some l).
Proof. reflexivity. Qed.

(** *** [List] *)

Lemma copy_then_append (h : heap) (d : Device) (m : gmap string any) (out : list Device) :
  contents h (State d) = Some m ->
  (do copyDevice <- copy_device d; ret (out ++ [copyDevice])) h
  = Some (out ++ [with_State d (Some (fresh (dom h)))], <[fresh (dom h) := OMap m]> h).
Proof. intros Hc. erewrite bind_ok by (apply copy_device_ok; exact Hc). reflexivity. Qed.

Lemma List_loop (s : Store) (ids : list string) :
  forall (out : list Device) (h : heap),
    (forall id d, devices s !! id = Some d -> is_Some (table h d)) ->
    exists snaps h',
      for_each ids
        (fun out id =>
           match devices s !! id with
           | None => ret out
           | Some device => do copyDevice <- copy_device device; ret (out ++ [copyDevice])
           end) out h = Some (out ++ snaps, h')
      /\ h ⊆ h'
      /\ Forall2 (snapshot_of h h') (omap (fun id => devices s !! id) ids) snaps.
Proof.
  induction ids as [|id ids IH]; intros out h Hwf; cbn [for_each omap].
  - exists [], h. rewrite app_nil_r. split; [done|]. split; [done | constructor].
  - destruct (devices s !! id) as [d|] eqn:Ed.
    + destruct (Hwf _ _ Ed) as [m Hm].
      assert (Hc : contents h (State d) = Some m).
      { unfold table in Hm. now destruct (State d). }
      set (l := fresh (dom h)). set (h1 := <[l := OMap m]> h).
      assert (Hsub1 : h ⊆ h1) by apply alloc_extends.
      destruct (IH (out ++ [with_State d (Some l)]) h1) as (snaps & h' & Hrun & Hsub & Hall).
      { intros id' d' Hd'. destruct (Hwf _ _ Hd') as [m' Hm'].
        exists m'. now apply (table_weaken h). }
      exists (with_State d (Some l) :: snaps), h'.
      split; [|split].
      * erewrite bind_ok by (apply copy_then_append; exact Hc).
        etrans; [exact Hrun|]. now rewrite <- app_assoc.
      * now transitivity h1.
      * simpl. rewrite Ed. constructor.
        -- split; [done|]. split.
           ++ intros m0. rewrite Hm. intros [= <-]. rewrite table_with_State.
              apply (contents_weaken h1); [done|]. simpl. unfold h1.
              now rewrite lookup_insert_eq.
           ++ exists l. split; [done | apply is_fresh].
        -- eapply Forall2_impl; [exact Hall|].
           intros d' snap (Hf & Ht & l' & Hl' & Hfresh). split; [done|]. split.
           ++ intros m' Hm'. apply Ht. now apply (table_weaken h).
           ++ exists l'. split; [done|]. intros Hin. apply Hfresh.
              unfold h1. rewrite dom_insert_L. apply elem_of_union. now right.
    + simpl. rewrite Ed. apply IH, Hwf.
Qed.

Lemma List_ok (s : Store) (h : heap) :
  (forall id d, devices s !! id = Some d -> is_Some (table h d)) ->
  exists snaps h',
    List s h = Some (snaps, h') /\ h ⊆ h'
    /\ Forall2 (snapshot_of h h') (omap (fun id => devices s !! id) (order s)) snaps.
Proof.
  intros Hwf. destruct (List_loop s (order s) [] h Hwf) as (snaps & h' & Hrun & Hrest).
  exists snaps, h'. split; [exact Hrun | exact Hrest].
Qed.

(** *** The store invariant under the calls *)

Lemma table_extends_inv (h h' : heap) (d : Device) (m : gmap string any) :
  h ⊆ h' -> is_Some (table h d) -> table h' d = Some m -> table h d = Some m.
Proof.
  intros Hsub [m0 Hm0] Hm. rewrite (table_weaken _ _ _ _ Hsub Hm0) in Hm. congruence.
Qed.

Lemma store_wf_extends (s : Store) (h h' : heap) :
  store_wf s h -> h ⊆ h' -> store_wf s h'.
Proof.
  intros [Htab Hinj] Hsub. split; [|exact Hinj].
  intros id d Hd. destruct (Htab _ _ Hd) as [m Hm].
  exists m. now apply (table_weaken h).
Qed.

Lemma store_in_domain_extends (s : Store) (h h' : heap) :
  store_wf s h -> store_in_domain s h -> h ⊆ h' -> store_in_domain s h'.
Proof.
  intros [Htab _] Hdom Hsub id d m Hd Hm.
  apply (Hdom id d m Hd). eapply table_extends_inv; eauto.
Qed.

(** What [Update] of a stored device does to the heap. *)
Lemma Update_effect (s : Store) (h : heap) (id : string)
    (state : option (gmap string any)) (d : Device) (m0 : gmap string any) :
  devices s !! id = Some d -> table h d = Some m0 ->
  exists snap h',
    Update s id state h = Some (inl snap, h')
    /\ table h' d = Some (normalized_merge (Kind d) m0 state)
    /\ same_fields d snap
    /\ table h' snap = Some (normalized_merge (Kind d) m0 state)
    /\ (exists l, State snap = Some l /\ l ∉ dom h)
    /\ (forall a, State d <> Some a -> a ∈ dom h -> h' !! a = h !! a)
    /\ dom h ⊆ dom h'.
Proof.
  intros Hd Hm0. unfold table in Hm0.
  destruct (State d) as [l|] eqn:Hst; [|done]. simpl in Hm0.
  destruct (h !! l) as [[m|]|] eqn:Hl; try done. injection Hm0 as ->.
  set (m' := normalized_merge (Kind d) m0 state).
  set (l' := fresh (dom h)).
  assert (Hne : l <> l').
  { intros E. pose proof (fresh_lookup h) as Hf. fold l' in Hf. congruence. }
  exists (with_State d (Some l')), (<[l' := OMap m']> (<[l := OMap m']> h)).
  split; [now apply Update_ok|].
  split; [|split; [|split; [|split; [|split]]]].
  - unfold table. rewrite Hst. simpl.
    rewrite lookup_insert_ne by done. now rewrite lookup_insert_eq.
  - done.
  - rewrite table_with_State. simpl. now rewrite lookup_insert_eq.
  - exists l'. split; [done | apply is_fresh].
  - intros a Ha Hin. rewrite lookup_insert_ne, lookup_insert_ne; [done|congruence|].
    intros <-. now apply (is_fresh (dom h)).
  - rewrite !dom_insert_L. apply union_subseteq_r', union_subseteq_r.
Qed.

Lemma Update_preserves_wf (s : Store) (h h' : heap) (id : string)
    (state : option (gmap string any)) (r : Device + string) :
  store_wf s h -> Update s id state h = Some (r, h') -> store_wf s h'.
Proof.
  intros Hwf Hup. destruct (devices s !! id) as [d|] eqn:Hd.
  - destruct Hwf as [Htab Hinj].
    destruct (Htab _ _ Hd) as [m0 Hm0].
    destruct (Update_effect s h id state d m0 Hd Hm0)
      as (snap & h2 & Hrun & Htd & _ & _ & _ & Hframe & Hdom).
    rewrite Hrun in Hup. injection Hup as <- <-.
    split; [|exact Hinj].
    intros id2 d2 Hd2. destruct (decide (State d2 = State d)) as [E|Hne].
    + rewrite <- (Hinj _ _ _ _ Hd2 Hd E) in Hd. assert (d2 = d) as -> by congruence. eauto.
    + destruct (Htab _ _ Hd2) as [m2 Hm2]. exists m2.
      destruct (table_Some_dom h d2) as (a & Ha & Hin); [eauto|].
      unfold table in *. rewrite Ha in *. simpl in *.
      rewrite Hframe; [done | congruence | done].
  - rewrite (Update_missing s h id state Hd) in Hup. now injection Hup as <- <-.
Qed.

Lemma nan_free_entry (id key : string) (state : option (gmap string any)) (v : any) :
  nan_free (CallUpdate id state) = true ->
  default ∅ state !! key = Some v -> reads_as_nan v = false.
Proof.
  simpl. intros Hall Hv. rewrite forallb_forall in Hall.
  apply negb_true_iff, (Hall (key, v)). apply list_elem_of_In.
  destruct state as [m|]; simpl in *; [now apply elem_of_map_to_list | done].
Qed.

Lemma merge_in_domain (kind id : string) (m0 : gmap string any)
    (state : option (gmap string any)) :
  table_in_domain kind m0 -> nan_free (CallUpdate id state) = true ->
  table_in_domain kind (normalized_merge kind m0 state).
Proof.
  intros Hd Hfree key v. rewrite normalized_merge_lookup.
  destruct (default ∅ state !! key) as [v0|] eqn:E.
  - intros [= <-]. apply normalize_in_domain. eapply nan_free_entry; eauto.
  - apply Hd.
Qed.

Lemma Update_preserves_domain (s : Store) (h h' : heap) (id : string)
    (state : option (gmap string any)) (r : Device + string) :
  store_wf s h -> store_in_domain s h -> nan_free (CallUpdate id state) = true ->
  Update s id state h = Some (r, h') -> store_in_domain s h'.
Proof.
  intros Hwf Hdom Hfree Hup. destruct (devices s !! id) as [d|] eqn:Hd.
  - destruct Hwf as [Htab Hinj].
    destruct (Htab _ _ Hd) as [m0 Hm0].
    destruct (Update_effect s h id state d m0 Hd Hm0)
      as (snap & h2 & Hrun & Htd & _ & _ & _ & Hframe & _).
    rewrite Hrun in Hup. injection Hup as <- <-.
    intros id2 d2 m2 Hd2 Hm2. destruct (decide (State d2 = State d)) as [E|Hne].
    + rewrite <- (Hinj _ _ _ _ Hd2 Hd E) in Hd. assert (d2 = d) as -> by congruence.
      assert (m2 = normalized_merge (Kind d) m0 state) as -> by congruence.
      eapply merge_in_domain; eauto.
    + apply (Hdom id2 d2 m2 Hd2).
      destruct (table_Some_dom h d2) as (a & Ha & Hin); [eauto|].
      unfold table in *. rewrite Ha in *. simpl in *.
      rewrite Hframe in Hm2; [done | congruence | done].
  - rewrite (Update_missing s h id state Hd) in Hup. now injection Hup as <- <-.
Qed.

(** Every call returns on a well-formed store, keeps it well-formed, and
    writes nowhere but into the tables of the store. *)
Lemma run_call_ok (s : Store) (c : call) (h : heap) :
  store_wf s h ->
  exists h',
    run_call s c h = Some (tt, h')
    /\ store_wf s h'
    /\ dom h ⊆ dom h'
    /\ (forall a, a ∈ dom h ->
                  (forall id d, devices s !! id = Some d -> State d <> Some a) ->
                  h' !! a = h !! a)
    /\ (nan_free c = true -> store_in_domain s h -> store_in_domain s h').
Proof.
  intros Hwf. pose proof Hwf as [Htab Hinj]. destruct c as [id state|id|]; simpl.
  - destruct (devices s !! id) as [d|] eqn:Hd.
    + destruct (Htab _ _ Hd) as [m0 Hm0].
      destruct (Update_effect s h id state d m0 Hd Hm0)
        as (snap & h' & Hrun & _ & _ & _ & _ & Hframe & Hdom).
      exists h'. split; [now erewrite bind_ok by exact Hrun|].
      split; [eapply Update_preserves_wf; eauto|].
      split; [done|]. split.
      * intros a Hin Hno. apply Hframe; [|done]. eapply Hno; eauto.
      * intros Hfree Hin. eapply Update_preserves_domain; eauto.
    + exists h. split; [now erewrite bind_ok by now apply Update_missing|].
      repeat split; try done; try apply Hwf.
  - destruct (devices s !! id) as [d|] eqn:Hd.
    + destruct (Htab _ _ Hd) as [m0 Hm0].
      exists (<[fresh (dom h) := OMap m0]> h).
      split; [now erewrite bind_ok by (eapply Get_ok; eauto)|].
      pose proof (alloc_extends h (OMap m0)) as Hsub.
      split; [now apply (store_wf_extends s h)|].
      split; [now apply subseteq_dom|]. split.
      * intros a Hin _. apply elem_of_dom in Hin as [o Ho].
        rewrite Ho. now apply (lookup_weaken h).
      * intros _ Hin. now apply (store_in_domain_extends s h).
    + exists h. split; [now erewrite bind_ok by now apply Get_missing|].
      repeat split; try done; try apply Hwf.
  - destruct (List_ok s h Htab) as (snaps & h' & Hrun & Hsub & _).
    exists h'. split; [now erewrite bind_ok by exact Hrun|].
    split; [now apply (store_wf_extends s h)|].
    split; [now apply subseteq_dom|]. split.
    + intros a Hin _. apply elem_of_dom in Hin as [o Ho].
      rewrite Ho. now apply (lookup_weaken h).
    + intros _ Hin. now apply (store_in_domain_extends s h).
Qed.

Lemma run_calls_ok (s : Store) (cs : list call) :
  forall h, store_wf s h ->
  exists h',
    run_calls s cs h = Some (tt, h')
    /\ store_wf s h'
    /\ dom h ⊆ dom h'
    /\ (forall a, a ∈ dom h ->
                  (forall id d, devices s !! id = Some d -> State d <> Some a) ->
                  h' !! a = h !! a)
    /\ (forallb nan_free cs = true -> store_in_domain s h -> store_in_domain s h').
Proof.
  unfold run_calls. induction cs as [|c cs IH]; intros h Hwf; cbn [for_each forallb].
  - exists h. repeat split; try done; try apply Hwf.
  - destruct (run_call_ok s c h Hwf) as (h1 & Hrun1 & Hwf1 & Hdom1 & Hframe1 & Hin1).
    destruct (IH h1 Hwf1) as (h' & Hrun & Hwf' & Hdom & Hframe & Hin).
    exists h'. split; [erewrite bind_ok by exact Hrun1; exact Hrun|].
    split; [done|]. split; [now transitivity (dom h1)|]. split.
    + intros a Ha Hno. rewrite Hframe; [now apply Hframe1 | now apply Hdom1 | done].
    + intros [Hc Hcs]%andb_true_iff Hd. auto.
Qed.

(** *** [NewStore] *)

Lemma store_wf_insert (s : Store) (h : heap) (d : Device) (m : gmap string any) :
  store_wf s h ->
  store_wf {| devices := <[ID d := with_State d (Some (fresh (dom h)))]> (devices s);
              order := order s ++ [ID d] |}
           (<[fresh (dom h) := OMap m]> h).
Proof.
  intros [Htab Hinj]. set (l := fresh (dom h)).
  pose proof (alloc_extends h (OMap m)) as Hsub. fold l in Hsub.
  assert (Hold : forall id0 d0, devices s !! id0 = Some d0 -> State d0 <> Some l).
  { intros id0 d0 Hd0 E. destruct (table_Some_dom h d0) as (a & Ha & Hin); [eauto|].
    apply (is_fresh (dom h)). fold l. congruence. }
  split; simpl.
  - intros id2 d2. rewrite lookup_insert. case_decide as E.
    + intros [= <-]. rewrite table_with_State. simpl. rewrite lookup_insert_eq. eauto.
    + intros Hd2. destruct (Htab _ _ Hd2) as [m2 Hm2]. exists m2.
      now apply (table_weaken h).
  - intros id1 id2 d1 d2. rewrite !lookup_insert.
    repeat case_decide; subst; try done.
    + intros [= <-] Hd2 E. symmetry in E. now apply Hold in Hd2.
    + intros Hd1 [= <-] E. now apply Hold in Hd1.
    + apply Hinj.
Qed.

Lemma NewStore_loop (catalog : list Device) :
  forall (s0 : Store) (h : heap),
    store_wf s0 h ->
    (forall d, d ∈ catalog -> is_Some (contents h (State d))) ->
    exists s h',
      for_each catalog
        (fun s device =>
           do copyDevice <- copy_device device;
           ret {| devices := <[ID device := copyDevice]> (devices s);
                  order := order s ++ [ID device] |}) s0 h = Some (s, h')
      /\ h ⊆ h' /\ store_wf s h'
      /\ order s = order s0 ++ (ID <$> catalog)
      /\ (forall id, id ∉ ID <$> catalog -> devices s !! id = devices s0 !! id)
      /\ (forall id, id ∈ ID <$> catalog ->
            exists d d', d ∈ catalog /\ ID d = id /\ devices s !! id = Some d'
                         /\ loaded_from h h' d d').
Proof.
  induction catalog as [|d rest IH]; intros s0 h Hwf Hcat; cbn [for_each fmap list_fmap].
  - exists s0, h. rewrite app_nil_r. repeat split; try done; try apply Hwf.
    intros id Hin. now apply elem_of_nil in Hin.
  - destruct (Hcat d) as [m Hm]; [left|].
    set (l := fresh (dom h)). set (h1 := <[l := OMap m]> h).
    set (s1 := {| devices := <[ID d := with_State d (Some l)]> (devices s0);
                  order := order s0 ++ [ID d] |}).
    assert (Hsub1 : h ⊆ h1) by apply alloc_extends.
    destruct (IH s1 h1) as (s & h' & Hrun & Hsub & Hwf' & Hord & Hout & Hin).
    { now apply store_wf_insert. }
    { intros d0 Hd0. destruct (Hcat d0) as [m0 Hm0]; [now right|].
      exists m0. now apply (contents_weaken h). }
    exists s, h'. split.
    { erewrite bind_ok; [exact Hrun|].
      erewrite bind_ok by (apply copy_device_ok; exact Hm). reflexivity. }
    split; [now transitivity h1|]. split; [done|]. split.
    { rewrite Hord. simpl. now rewrite <- app_assoc. }
    split.
    + intros id Hid. rewrite Hout.
      * simpl. rewrite lookup_insert_ne; [done|]. intros E. apply Hid. rewrite E. left.
      * intros Hr. apply Hid. now right.
    + intros id Hid. destruct (decide (id ∈ ID <$> rest)) as [Hr|Hr].
      * destruct (Hin id Hr) as (d0 & d' & Hd0 & Hid0 & Hd' & Hf & Ht).
        exists d0, d'. split; [now right|]. split; [done|]. split; [done|].
        split; [done|]. intros m0 Hm0. apply Ht. now apply (contents_weaken h).
      * apply elem_of_cons in Hid as [->|Hid]; [|done].
        exists d, (with_State d (Some l)). split; [left|]. split; [done|]. split.
        -- rewrite (Hout _ Hr). simpl. now rewrite lookup_insert_eq.
        -- split; [done|]. intros m0. rewrite Hm. intros [= <-].
           rewrite table_with_State. apply (contents_weaken h1); [done|].
           simpl. unfold h1. now rewrite lookup_insert_eq.
Qed.

Lemma store_wf_empty (h : heap) : store_wf {| devices := ∅; order := [] |} h.
Proof. split; simpl; intros *; now rewrite lookup_empty. Qed.

Lemma NewStore_ok (catalog : list Device) (h : heap) :
  (forall d, d ∈ catalog -> is_Some (contents h (State d))) ->
  exists s h',
    NewStore catalog h = Some (s, h')
    /\ h ⊆ h' /\ store_wf s h'
    /\ order s = ID <$> catalog
    /\ (forall id, id ∉ ID <$> catalog -> devices s !! id = None)
    /\ (forall id, id ∈ ID <$> catalog ->
          exists d d', d ∈ catalog /\ ID d = id /\ devices s !! id = Some d'
                       /\ loaded_from h h' d d').
Proof.
  intros Hcat.
  destruct (NewStore_loop catalog _ h (store_wf_empty h) Hcat)
    as (s & h' & Hrun & Hsub & Hwf & Hord & Hout & Hin).
  exists s, h'. split; [exact Hrun|]. split; [done|]. split; [done|].
  split; [done|]. split; [|done].
  intros id Hid. now rewrite (Hout id Hid).
Qed.

(** *** [loadDevices] *)

Lemma missing_field_test (d : Device) :
  (String.eqb (ID d) "" || String.eqb (Name d) "" || String.eqb (Kind d) "") = false
  <-> fields_present d.
Proof.
  unfold fields_present. rewrite !orb_false_iff, !String.eqb_neq. tauto.
Qed.

Lemma ensure_state_ok (h : heap) (d : Device) :
  exists d' h',
    match State d with
    | None => do l <- alloc (OMap ∅); ret (with_State d (Some l))
    | Some _ => ret d
    end h = Some (d', h')
    /\ h ⊆ h' /\ loaded_from h h' d d'.
Proof.
  destruct (State d) as [l|] eqn:Hst.
  - exists d, h. split; [done|]. split; [done|]. split; [done|].
    intros m. unfold table. now rewrite Hst.
  - exists (with_State d (Some (fresh (dom h)))), (<[fresh (dom h) := OMap ∅]> h).
    split; [reflexivity|]. split; [apply alloc_extends|]. split; [done|].
    intros m. rewrite Hst. intros [= <-]. rewrite table_with_State. unfold contents.
    rewrite lookup_insert_eq. reflexivity.
Qed.

Lemma loaded_from_trans (h h1 h2 : heap) (d d' : Device) :
  h1 ⊆ h2 -> loaded_from h h1 d d' -> loaded_from h h2 d d'.
Proof.
  intros Hsub [Hf Ht]. split; [done|]. intros m Hm. apply (table_weaken h1); auto.
Qed.

Lemma loaded_from_weaken_l (h h1 h2 : heap) (d d' : Device) :
  h ⊆ h1 -> loaded_from h1 h2 d d' -> loaded_from h h2 d d'.
Proof.
  intros Hsub [Hf Ht]. split; [done|]. intros m Hm. apply Ht.
  now apply (contents_weaken h).
Qed.

(** The loop accepts exactly the catalogs whose devices have their three
    fields and pairwise distinct, unseen ids. *)
Lemma check_devices_accepts (catalog : list Device) :
  forall (seen : gset string) (h : heap),
    Forall fields_present catalog -> NoDup (ID <$> catalog) ->
    (forall id, id ∈ ID <$> catalog -> id ∉ seen) ->
    exists checked h',
      check_devices (Some <$> catalog) seen h = Some (inl checked, h')
      /\ h ⊆ h' /\ Forall2 (loaded_from h h') catalog checked.
Proof.
  induction catalog as [|d rest IH]; intros seen h Hf Hnd Hseen;
    rewrite ?fmap_nil, ?fmap_cons; cbn [check_devices].
  - exists [], h. split; [done|]. split; [done | constructor].
  - inversion Hf as [|? ? Hd Hf']; subst.
    cbn [fmap list_fmap] in Hnd. inversion Hnd as [|? ? Hnotin Hnd']; subst.
    apply missing_field_test in Hd. rewrite Hd.
    rewrite decide_False by (apply Hseen; left).
    destruct (ensure_state_ok h d) as (d' & h1 & Hrun1 & Hsub1 & Hl1).
    destruct (IH ({[ID d]} ∪ seen) h1 Hf' Hnd') as (checked & h' & Hrun & Hsub & Hall).
    { intros id Hid [->%elem_of_singleton|Hin]%elem_of_union; [done|].
      revert Hin. apply Hseen. now right. }
    exists (d' :: checked), h'. split.
    { erewrite bind_ok by exact Hrun1. now erewrite bind_ok by exact Hrun. }
    split; [now transitivity h1|]. constructor.
    + now apply (loaded_from_trans h h1).
    + eapply Forall2_impl; [exact Hall|]. intros d0 d0'.
      now apply loaded_from_weaken_l.
Qed.

Lemma check_devices_rejects (catalog : list Device) :
  forall (seen : gset string) (h : heap),
    ~ (Forall fields_present catalog /\ NoDup (ID <$> catalog)
       /\ forall id, id ∈ ID <$> catalog -> id ∉ seen) ->
    exists msg h', check_devices (Some <$> catalog) seen h = Some (inr msg, h').
Proof.
  induction catalog as [|d rest IH]; intros seen h Hbad;
    rewrite ?fmap_nil, ?fmap_cons; cbn [check_devices].
  - exfalso. apply Hbad. split; [constructor|]. split; [constructor|].
    intros id Hid. now apply elem_of_nil in Hid.
  - destruct (String.eqb (ID d) "" || String.eqb (Name d) "" || String.eqb (Kind d) "")
      eqn:Hd; [eauto|].
    apply missing_field_test in Hd.
    destruct (decide (ID d ∈ seen)) as [Hin|Hnotin]; [eauto|].
    destruct (ensure_state_ok h d) as (d' & h1 & Hrun1 & Hsub1 & Hl1).
    destruct (IH ({[ID d]} ∪ seen) h1) as (msg & h' & Hrun).
    { intros (Hf & Hnd & Hseen). apply Hbad. split; [now constructor|]. split.
      - cbn [fmap list_fmap]. constructor; [|done].
        intros Hin. apply (Hseen _ Hin). apply elem_of_union. left.
        now apply elem_of_singleton.
      - intros id [->|Hid]%elem_of_cons; [done|].
        intros Hin. apply (Hseen _ Hid). apply elem_of_union. now right. }
    exists msg, h'. erewrite bind_ok by exact Hrun1. now erewrite bind_ok by exact Hrun.
Qed.

Lemma merge_entries_any_order (d : Device) (h : heap) (state : option (gmap string any))
    (entries : list (string * any)) :
  is_Some (table h d) -> entries ≡ₚ range_entries state ->
  merge_entries d entries h = merge_entries d (range_entries state) h.
Proof.
  intros [m0 Hm0] Hperm. unfold table in Hm0.
  destruct (State d) as [l|] eqn:Hst; [|done]. simpl in Hm0.
  destruct (h !! l) as [[m|]|] eqn:Hl; try done. injection Hm0 as ->.
  rewrite !(merge_entries_ok d l _ Hst h m0 Hl).
  now rewrite (merge_loop _ _ state entries Hperm), (merge_loop _ _ state _ (reflexivity _)).
Qed.
End StoreFacts.

(** ** The hub *)

Lemma broadcast_step (message : WSMessage) (c : conn) (w : World) :
  (let '(ok, w') := WriteJSON c message w in
   if ok then w' else set_clients w' (clients w' ∖ {[c]}))
  = if decide (c ∈ broken w) then set_clients w (clients w ∖ {[c]})
    else set_wire w (wire w ++ [(c, message)]).
Proof. unfold WriteJSON. now destruct (decide (c ∈ broken w)). Qed.

(** A broadcast writes the message once to every client whose connection
    works, drops the others, and touches nothing else. *)
Lemma broadcast_fold (message : WSMessage) (l : list conn) :
  forall w : World,
    let w' := foldl (fun w client =>
                       let '(ok, w') := WriteJSON client message w in
                       if ok then w' else set_clients w' (clients w' ∖ {[client]}))
                    w l in
    store w' = store w /\ broadcast w' = broadcast w /\ broken w' = broken w
    /\ clients w' = clients w ∖ (list_to_set l ∩ broken w)
    /\ wire w' = wire w ++ ((fun c => (c, message)) <$> filter (fun c => c ∉ broken w) l).
Proof.
  induction l as [|c l IH]; intros w; cbn [foldl].
  - cbn zeta. simpl. rewrite app_nil_r. repeat split; try done.
    now rewrite intersection_empty_l_L, difference_empty_L.
  - cbn zeta. rewrite broadcast_step. destruct (decide (c ∈ broken w)) as [Hb|Hb].
    + destruct (IH (set_clients w (clients w ∖ {[c]}))) as (Hs & Hq & Hbr & Hc & Hw).
      rewrite Hs, Hq, Hbr, Hc, Hw. simpl.
      rewrite filter_cons_False by (intros Hn; now apply Hn).
      repeat split; try done. set_solver.
    + destruct (IH (set_wire w (wire w ++ [(c, message)]))) as (Hs & Hq & Hbr & Hc & Hw).
      rewrite Hs, Hq, Hbr, Hc, Hw. simpl.
      rewrite filter_cons_True by done. simpl.
      rewrite <- app_assoc. repeat split; try done. set_solver.
Qed.

Lemma broadcastMessage_spec (message : WSMessage) (w : World) :
  let w' := broadcastMessage message w in
  store w' = store w /\ broadcast w' = broadcast w /\ broken w' = broken w
  /\ clients w' = clients w ∖ broken w
  /\ wire w' = wire w ++ ((fun c => (c, message))
                            <$> filter (fun c => c ∉ broken w) (elements (clients w))).
Proof.
  destruct (broadcast_fold message (elements (clients w)) w) as (Hs & Hq & Hbr & Hc & Hw).
  cbn zeta. unfold broadcastMessage. rewrite Hs, Hq, Hbr, Hc, Hw.
  repeat split; try done. rewrite list_to_set_elements_L. set_solver.
Qed.


(** ** The claims about normalization *)

Lemma round_grid : forallb round_check (seqZ (-2000) 4001) = true.
Proof. vm_compute. reflexivity. Qed.


Section NormalizationClaims.
Context `{GoRuntime}.

Lemma int_of_float_trunc (f : spec_float) (z : Z) :
  SFtrunc f = Some z -> in_int64 z = true -> int_of_float f = z.
Proof. intros Ht Hr. unfold int_of_float. now rewrite Ht, Hr. Qed.

Lemma level_tenths (k : Z) :
  -2000 <= k <= 2000 ->
  clampToInt (VFloat64 (f64_ratio k 10)) 0 100 = Z.max 0 (Z.min 100 ((k + 5) / 10)).
Proof.
  intros Hk. pose proof round_grid as Hg. rewrite forallb_forall in Hg.
  assert (Hin : In k (seqZ (-2000) 4001)) by (apply list_elem_of_In, elem_of_seqZ; lia).
  specialize (Hg k Hin). unfold round_check in Hg. simpl.
  destruct (SFtrunc (f64_add (f64_ratio k 10) f64_half)) as [z|] eqn:Ez; [|discriminate].
  apply andb_true_iff in Hg as [Hr Hc].
  rewrite (int_of_float_trunc _ _ Ez Hr). lia.
Qed.


End NormalizationClaims.



Section UpdateClaims.
Context `{GoRuntime}.

(** What [Update] stores under a supplied key. *)
Lemma Update_stores (s : Store) (h : heap) (id key : string)
    (state : option (gmap string any)) (d : Device) (v : any) :
  store_wf s h -> devices s !! id = Some d -> default ∅ state !! key = Some v ->
  exists snap h' m,
    Update s id state h = Some (inl snap, h')
    /\ table h' d = Some m /\ table h' snap = Some m
    /\ m !! key = Some (normalizeValue (Kind d) key v).
Proof.
  intros [Htab _] Hd Hv. destruct (Htab _ _ Hd) as [m0 Hm0].
  destruct (Update_effect s h id state d m0 Hd Hm0)
    as (snap & h' & Hrun & Htd & _ & Hts & _).
  exists snap, h', (normalized_merge (Kind d) m0 state).
  repeat split; try done. now rewrite normalized_merge_lookup, Hv.
Qed.

(** X19: a partial update that carries no NaN leaves, under every supplied
    key, a value of the domain of the device's kind; a position or level
    is rounded (one half added, then truncated) before it is clamped:
    150 gives 100, -5 gives 0, 42.6 gives 43, and every multiple k/10 of
    a tenth from -200.0 to 200.0 gives the half-up rounding of k/10
    clamped to 0..100. *)
Theorem update_value_in_domain (s : Store) (h : heap) (id key : string)
    (state : option (gmap string any)) (d : Device) (v : any) :
  store_wf s h -> devices s !! id = Some d ->
  default ∅ state !! key = Some v -> reads_as_nan v = false ->
  exists snap h' m v',
    Update s id state h = Some (inl snap, h')
    /\ table h' d = Some m /\ m !! key = Some v'
    /\ in_domain (Kind d) key v' = true
    /\ (rule_of (Kind d) key = Some RLevel ->
        (v = VFloat64 (f64_of_Z 150) -> v' = VInt 100)
        /\ (v = VFloat64 (f64_of_Z (-5)) -> v' = VInt 0)
        /\ (v = VFloat64 (f64_ratio 426 10) -> v' = VInt 43)
        /\ (forall k, -2000 <= k <= 2000 -> v = VFloat64 (f64_ratio k 10) ->
                      v' = VInt (Z.max 0 (Z.min 100 ((k + 5) / 10))))).
Proof.
  intros Hwf Hd Hv Hnan.
  destruct (Update_stores s h id key state d v Hwf Hd Hv) as (snap & h' & m & Hrun & Ht & _ & Hm).
  exists snap, h', m, (normalizeValue (Kind d) key v).
  split; [done|]. split; [done|]. split; [done|].
  split; [now apply normalize_in_domain|].
  intros Hr. rewrite (normalize_level _ _ _ Hr).
  repeat split.
  - now intros ->.
  - now intros ->.
  - now intros ->.
  - intros k Hk ->. f_equal. now apply level_tenths.
Qed.

(** C5, as amended: a value that no case of the rule's type switch reads
    is stored as the rule's fallback, which is false for a boolean key, 0
    for a position or level, and the lower bound 10.0 (not 0.0) for the
    thermostat temperature; the update succeeds. *)
Theorem uninterpretable_falls_back (s : Store) (h : heap) (id key : string)
    (state : option (gmap string any)) (d : Device) (v : any) (r : rule) :
  store_wf s h -> devices s !! id = Some d ->
  default ∅ state !! key = Some v ->
  rule_of (Kind d) key = Some r -> r <> RMode -> interpretable r v = false ->
  exists snap h' m,
    Update s id state h = Some (inl snap, h')
    /\ table h' d = Some m /\ m !! key = Some (fallback r)
    /\ in_domain (Kind d) key (fallback r) = true.
Proof.
  intros Hwf Hd Hv Hr Hmode Hun.
  destruct (Update_stores s h id key state d v Hwf Hd Hv) as (snap & h' & m & Hrun & Ht & _ & Hm).
  exists snap, h', m. split; [done|]. split; [done|].
  assert (Hfb : normalizeValue (Kind d) key v = fallback r).
  { destruct r; [| | |done].
    - rewrite (normalize_level _ _ _ Hr).
      destruct v; simpl in *; try discriminate; try reflexivity.
      destruct (ParseInt s0); [|reflexivity].
      rewrite bool_decide_eq_false in Hun. exfalso. apply Hun. eauto.
    - rewrite (normalize_temperature _ _ _ Hr).
      destruct v; simpl in *; try discriminate; try reflexivity.
      destruct (ParseFloat s0); [|reflexivity].
      rewrite bool_decide_eq_false in Hun. exfalso. apply Hun. eauto.
    - rewrite (normalize_switch _ _ _ Hr).
      destruct v; simpl in *; try discriminate; reflexivity. }
  split; [now rewrite Hm, Hfb|].
  unfold in_domain. rewrite Hr. now destruct r.
Qed.
End UpdateClaims.

(** C5, the code against the claim: a thermostat temperature updated with
    a string is stored as 10.0, which is not the zero value 0.0. *)
Lemma temperature_fallback_not_zero :
  @stored_after sample_runtime thermo1 "temperature" (VString "warm")
  = Some (VFloat64 (f64_of_Z 10))
  /\ @stored_after sample_runtime thermo1 "temperature" (VString "warm")
     <> Some (zero_value RTemperature)
  /\ @interpretable sample_runtime RTemperature (VString "warm") = false.
Proof. vm_compute. repeat split; congruence. Qed.

(** C10: an input that decodes to no devices is a load error, whatever the
    heap, and start-up stops there with no store built. *)
Theorem empty_catalog_fails (h : heap) :
  loadDevices (Decoded []) h = Some (inr "no devices defined"%string, h)
  /\ startup (Decoded []) h
     = Some (inr "failed to load devices: no devices defined"%string, h).
Proof. split; reflexivity. Qed.

(** ** Start-up *)

Lemma loaded_from_compose (h0 h1 h2 : heap) (d d' d'' : Device) :
  loaded_from h0 h1 d d' -> loaded_from h1 h2 d' d'' -> loaded_from h0 h2 d d''.
Proof.
  intros [Hf1 Ht1] [Hf2 Ht2]. split.
  - destruct Hf1 as (? & ? & ? & ?), Hf2 as (? & ? & ? & ?).
    repeat split; congruence.
  - intros m Hm. apply Ht2. specialize (Ht1 m Hm).
    unfold table in Ht1. now destruct (State d').
Qed.

Lemma NoDup_fmap_eq {A B} (f : A -> B) (l : list A) (x y : A) :
  NoDup (f <$> l) -> x ∈ l -> y ∈ l -> f x = f y -> x = y.
Proof.
  induction l as [|a l IH]; cbn [fmap list_fmap]; intros Hnd Hx Hy E.
  - now apply elem_of_nil in Hx.
  - inversion Hnd as [|? ? Ha Hnd']; subst.
    apply elem_of_cons in Hx as [->|Hx], Hy as [->|Hy]; auto.
    + exfalso. apply Ha. rewrite E. now apply list_elem_of_fmap_2.
    + exfalso. apply Ha. rewrite <- E. now apply list_elem_of_fmap_2.
Qed.

Lemma Forall2_elem_r {A B} (R : A -> B -> Prop) (l : list A) (k : list B) (y : B) :
  Forall2 R l k -> y ∈ k -> exists x, x ∈ l /\ R x y.
Proof.
  induction 1 as [|x y' l k HR _ IH]; intros Hy.
  - now apply elem_of_nil in Hy.
  - apply elem_of_cons in Hy as [->|Hy].
    + exists x. split; [left | done].
    + destruct (IH Hy) as (x' & Hx' & HR'). exists x'. split; [now right | done].
Qed.

Lemma Forall2_omap_lookup {A} (R : Device -> A -> Prop) (f : string -> option A)
    (l : list Device) :
  (forall d, d ∈ l -> exists a, f (ID d) = Some a /\ R d a) ->
  Forall2 R l (omap f (ID <$> l)).
Proof.
  induction l as [|d l IH]; intros Hall; cbn [fmap list_fmap omap].
  - constructor.
  - destruct (Hall d) as (a & Ha & HR); [left|]. simpl. rewrite Ha. constructor; [done|].
    apply IH. intros d0 Hd0. apply Hall. now right.
Qed.

Lemma startup_ok (catalog : list Device) (h0 : heap) :
  catalog <> [] -> Forall fields_present catalog -> NoDup (ID <$> catalog) ->
  (forall d, d ∈ catalog -> is_Some (contents h0 (State d))) ->
  exists w h1, startup (Decoded (Some <$> catalog)) h0 = Some (inl w, h1) /\ started catalog h0 w h1.
Proof.
  intros Hne Hf Hnd Htyped.
  destruct (check_devices_accepts catalog ∅ h0 Hf Hnd) as (checked & h' & Hrun & Hsub & Hall).
  { intros id _. apply not_elem_of_empty. }
  assert (Hids : ID <$> checked = ID <$> catalog).
  { clear -Hall. induction Hall as [|d d' l l' [(E & _) _] _ IH]; [done|].
    rewrite !fmap_cons. congruence. }
  destruct (NewStore_ok checked h') as (s & h1 & Hnew & Hsub' & Hwf & Hord & Hout & Hin).
  { intros d' Hd'. destruct (Forall2_elem_r _ _ _ _ Hall Hd') as (d & Hd & _ & Ht).
    destruct (Htyped d Hd) as [m Hm]. exists m. specialize (Ht m Hm).
    unfold table in Ht. now destruct (State d'). }
  exists {| store := s; clients := ∅; broadcast := []; wire := []; broken := ∅ |}, h1.
  split.
  - unfold startup, loadDevices. destruct catalog as [|d0 rest]; [done|].
    erewrite bind_ok by exact Hrun. cbn beta iota.
    now erewrite bind_ok by exact Hnew.
  - split; [done|]. split; [now transitivity h'|]. split; [simpl; congruence|].
    split; [done|]. split; [done|]. split; [done|]. simpl. split.
    + intros id d'' Hd''.
      assert (Hid : id ∈ ID <$> checked).
      { destruct (decide (id ∈ ID <$> checked)) as [|Hno]; [done|].
        rewrite (Hout id Hno) in Hd''. discriminate. }
      destruct (Hin id Hid) as (d' & d2 & Hd' & Hid' & Hd2 & Hl).
      assert (d2 = d'') as -> by congruence.
      destruct (Forall2_elem_r _ _ _ _ Hall Hd') as (d & Hd & Hl0).
      exists d. split; [done|]. split.
      * destruct Hl0 as [(E & _) _]. congruence.
      * now apply (loaded_from_compose h0 h' h1 d d' d'').
    + intros d Hd. destruct (Hin (ID d)) as (d' & d2 & _ & _ & Hd2 & _).
      * rewrite Hids. now apply list_elem_of_fmap_2.
      * eauto.
Qed.

Lemma startup_rejects (catalog : list Device) (h0 : heap) :
  ~ (Forall fields_present catalog /\ NoDup (ID <$> catalog)) ->
  exists msg h1, startup (Decoded (Some <$> catalog)) h0 = Some (inr msg, h1).
Proof.
  intros Hbad. unfold startup, loadDevices.
  destruct catalog as [|d0 rest]; [eauto|].
  destruct (check_devices_rejects (d0 :: rest) ∅ h0) as (msg & h1 & Hrun).
  { intros (Hf & Hnd & _). now apply Hbad. }
  exists ("failed to load devices: " +:+ msg), h1. now erewrite bind_ok by exact Hrun.
Qed.

Lemma startup_inl_inv (catalog : list Device) (h0 h1 : heap) (w : World) :
  startup (Decoded (Some <$> catalog)) h0 = Some (inl w, h1) ->
  catalog <> [] /\ Forall fields_present catalog /\ NoDup (ID <$> catalog).
Proof.
  intros Hrun. split.
  - intros ->. discriminate Hrun.
  - destruct (decide (Forall fields_present catalog /\ NoDup (ID <$> catalog))) as [|Hbad];
      [done|].
    destruct (startup_rejects catalog h0 Hbad) as (msg & h2 & Hrej). congruence.
Qed.

Lemma loadDevices_rejects (catalog : list Device) (h0 : heap) :
  ~ (Forall fields_present catalog /\ NoDup (ID <$> catalog)) ->
  exists msg h1,
    loadDevices (Decoded (Some <$> catalog)) h0 = Some (inr msg, h1)
    /\ startup (Decoded (Some <$> catalog)) h0 = Some (inr ("failed to load devices: " +:+ msg), h1).
Proof.
  intros Hbad. unfold startup.
  assert (exists msg h1, loadDevices (Decoded (Some <$> catalog)) h0 = Some (inr msg, h1))
    as (msg & h1 & Hrun).
  { unfold loadDevices. destruct catalog as [|d0 rest]; [eauto|].
    apply check_devices_rejects. intros (Hf & Hnd & _). now apply Hbad. }
  exists msg, h1. split; [done|]. now erewrite bind_ok by exact Hrun.
Qed.

(** A catalog that loads has no nil entry: the loop returns its devices
    only after it has read the id of every entry. *)
Lemma check_devices_inl_inv (entries : list (option Device)) :
  forall (seen : gset string) (h h' : heap) (checked : list Device),
    check_devices entries seen h = Some (inl checked, h') ->
    exists catalog, entries = Some <$> catalog.
Proof.
  induction entries as [|[d|] rest IH]; intros seen h h' checked Hrun.
  - now exists [].
  - cbn [check_devices] in Hrun.
    destruct (String.eqb (ID d) "" || String.eqb (Name d) "" || String.eqb (Kind d) "");
      [discriminate|].
    destruct (decide (ID d ∈ seen)); [discriminate|].
    destruct (ensure_state_ok h d) as (d' & h1 & Hrun1 & _).
    erewrite bind_ok in Hrun by exact Hrun1. cbn beta iota in Hrun.
    destruct (check_devices rest ({[ID d]} ∪ seen) h1) as [[[checked'|err] h2]|] eqn:Hrest.
    + destruct (IH _ _ _ _ Hrest) as [catalog ->]. now exists (d :: catalog).
    + erewrite bind_ok in Hrun by exact Hrest. discriminate.
    + rewrite (bind_panic _ _ _ Hrest) in Hrun. discriminate.
  - discriminate.
Qed.

Lemma startup_inl_entries (entries : list (option Device)) (h0 h1 : heap) (w : World) :
  startup (Decoded entries) h0 = Some (inl w, h1) ->
  exists catalog, entries = Some <$> catalog.
Proof.
  intros Hrun. unfold startup in Hrun.
  destruct (loadDevices (Decoded entries) h0) as [[[checked|err] h']|] eqn:Hload.
  - unfold loadDevices in Hload. destruct entries as [|entry rest]; [discriminate|].
    exact (check_devices_inl_inv _ _ _ _ _ Hload).
  - erewrite bind_ok in Hrun by exact Hload. discriminate.
  - rewrite (bind_panic _ _ _ Hload) in Hrun. discriminate.
Qed.

(** ** The claims about loading *)

(** C8, as amended: among the catalogs without a null entry, one in
    which two devices share an id, or a device lacks its id, name or
    kind, is refused with an error and no store is built; one that is not
    empty, with distinct ids and the three fields on every device, is
    loaded, and the store lists its devices in catalog order, each with
    the fields and the state entries the catalog gave it.  No other
    catalog is ever loaded: a start-up that builds a store had a catalog
    without null entries, not empty, with the three fields on every
    device and distinct ids. *)
Theorem catalog_loading (catalog : list Device) (h0 : heap) :
  (~ (Forall fields_present catalog /\ NoDup (ID <$> catalog)) ->
   exists msg h1,
     loadDevices (Decoded (Some <$> catalog)) h0 = Some (inr msg, h1)
     /\ startup (Decoded (Some <$> catalog)) h0 = Some (inr ("failed to load devices: " +:+ msg), h1))
  /\ (catalog <> [] -> Forall fields_present catalog -> NoDup (ID <$> catalog) ->
      (forall d, d ∈ catalog -> is_Some (contents h0 (State d))) ->
      exists w h1 listed h2,
        startup (Decoded (Some <$> catalog)) h0 = Some (inl w, h1)
        /\ List (store w) h1 = Some (listed, h2)
        /\ Forall2 (loaded_from h0 h2) catalog listed)
  /\ (forall entries w h1,
        startup (Decoded entries) h0 = Some (inl w, h1) ->
        exists loaded,
          entries = Some <$> loaded
          /\ loaded <> [] /\ Forall fields_present loaded /\ NoDup (ID <$> loaded)).
Proof.
  split; [apply loadDevices_rejects|]. split.
  2:{ intros entries w h1 Hrun.
      destruct (startup_inl_entries _ _ _ _ Hrun) as [loaded ->].
      exists loaded. split; [done|]. exact (startup_inl_inv _ _ _ _ Hrun). }
  intros Hne Hf Hnd Htyped.
  destruct (startup_ok catalog h0 Hne Hf Hnd Htyped)
    as (w & h1 & Hrun & Hwf & Hsub & Hord & _ & _ & _ & Hfrom & Hall).
  destruct (List_ok (store w) h1 (proj1 Hwf)) as (listed & h2 & Hlist & Hsub2 & Hsnaps).
  exists w, h1, listed, h2. split; [done|]. split; [done|].
  rewrite Hord in Hsnaps.
  eapply Forall2_trans; [|apply (Forall2_omap_lookup (loaded_from h0 h1))|exact Hsnaps].
  - intros d d' snap Hl (Hf' & Ht & _). split.
    + destruct Hl as [(? & ? & ? & ?) _], Hf' as (? & ? & ? & ?). repeat split; congruence.
    + intros m Hm. apply Ht. now apply Hl.
  - intros d Hd. destruct (Hall d Hd) as [d' Hd']. exists d'. split; [done|].
    destruct (Hfrom _ _ Hd') as (d0 & Hd0 & Hid & Hl).
    now rewrite (NoDup_fmap_eq ID catalog d d0 Hnd Hd Hd0).
Qed.

(** C8, the code against the claim: the empty catalog has distinct ids and
    no device with a missing field, and is refused. *)
Lemma empty_catalog_refused :
  Forall fields_present [] /\ NoDup (ID <$> [])
  /\ loadDevices (Decoded []) ∅ = Some (inr "no devices defined"%string, ∅)
  /\ (forall w h, startup (Decoded []) ∅ <> Some (inl w, h)).
Proof.
  split; [constructor|]. split; [constructor|]. split; [reflexivity|].
  intros w h. discriminate.
Qed.

Lemma catalog_loading_witness :
  ~ (Forall fields_present [blind1; blind1] /\ NoDup (ID <$> [blind1; blind1]))
  /\ (exists msg h1, loadDevices (Decoded [Some blind1; Some blind1]) ∅ = Some (inr msg, h1)
                     /\ startup (Decoded [Some blind1; Some blind1]) ∅
                        = Some (inr ("failed to load devices: " +:+ msg), h1))
  /\ [blind1; thermo1] <> []
  /\ Forall fields_present [blind1; thermo1]
  /\ NoDup (ID <$> [blind1; thermo1])
  /\ (forall d, d ∈ [blind1; thermo1] -> is_Some (contents ∅ (State d)))
  /\ exists w h1 listed h2,
       startup (Decoded [Some blind1; Some thermo1]) ∅ = Some (inl w, h1)
       /\ List (store w) h1 = Some (listed, h2)
       /\ Forall2 (loaded_from ∅ h2) [blind1; thermo1] listed
       /\ exists loaded,
            [Some blind1; Some thermo1] = Some <$> loaded
            /\ loaded <> [] /\ Forall fields_present loaded /\ NoDup (ID <$> loaded).
Proof.
  assert (Hdup : ~ (Forall fields_present [blind1; blind1]
                    /\ NoDup (ID <$> [blind1; blind1]))).
  { intros [_ Hnd]. inversion Hnd as [|? ? Hin _]; subst. apply Hin. left. }
  assert (Hf : Forall fields_present [blind1; thermo1]).
  { repeat constructor; discriminate. }
  assert (Hnd : NoDup (ID <$> [blind1; thermo1])).
  { cbn. apply NoDup_cons. split; [|apply NoDup_singleton].
    intros Hin%list_elem_of_singleton. discriminate. }
  assert (Ht : forall d, d ∈ [blind1; thermo1] -> is_Some (contents ∅ (State d))).
  { intros d Hd. apply list_elem_of_In in Hd. simpl in Hd.
    destruct Hd as [<-|[<-|[]]]; simpl; eauto. }
  split; [exact Hdup|].
  split; [exact (proj1 (catalog_loading [blind1; blind1] ∅) Hdup)|].
  split; [discriminate|]. split; [exact Hf|]. split; [exact Hnd|]. split; [exact Ht|].
  destruct (proj1 (proj2 (catalog_loading [blind1; thermo1] ∅)) ltac:(discriminate) Hf Hnd Ht)
    as (w & h1 & listed & h2 & Hrun & Hlist & Hall).
  exists w, h1, listed, h2. split; [exact Hrun|]. split; [exact Hlist|].
  split; [exact Hall|].
  exact (proj2 (proj2 (catalog_loading [] ∅)) [Some blind1; Some thermo1] w h1 Hrun).
Defined.


(** ** The claims about the store *)

Lemma demo_store_wf : store_wf demo_store demo_heap.
Proof.
  split; simpl.
  - intros id d [<- <-]%lookup_singleton_Some. now eexists.
  - intros id1 id2 d1 d2 [<- _]%lookup_singleton_Some [<- _]%lookup_singleton_Some _.
    reflexivity.
Qed.

Section InvariantClaims.
Context `{GoRuntime}.

(** C2, as amended: the loader stores the catalog's state as it is; when
    every state value of the catalog is in the domain of its kind and
    key, the store is in domain after start-up and stays so through every
    sequence of calls in which no value reads as NaN, and every such
    call returns. *)
Theorem domain_invariant (catalog : list Device) (h0 h1 : heap) (w : World)
    (cs : list call) :
  (forall d, d ∈ catalog ->
             exists m, contents h0 (State d) = Some m /\ table_in_domain (Kind d) m) ->
  startup (Decoded (Some <$> catalog)) h0 = Some (inl w, h1) ->
  forallb nan_free cs = true ->
  store_in_domain (store w) h1
  /\ exists h, run_calls (store w) cs h1 = Some (tt, h)
               /\ store_wf (store w) h /\ store_in_domain (store w) h.
Proof.
  intros Hcat Hrun Hfree.
  destruct (startup_inl_inv _ _ _ _ Hrun) as (Hne & Hf & Hnd).
  destruct (startup_ok catalog h0 Hne Hf Hnd)
    as (w' & h1' & Hrun' & Hwf & _ & _ & _ & _ & _ & Hfrom & _).
  { intros d Hd. destruct (Hcat d Hd) as (m & Hm & _). eauto. }
  rewrite Hrun in Hrun'. injection Hrun' as <- <-.
  assert (Hinit : store_in_domain (store w) h1).
  { intros id d' m Hd' Hm. destruct (Hfrom _ _ Hd') as (d & Hd & _ & (Hsame & Ht)).
    destruct (Hcat d Hd) as (m0 & Hm0 & Hdom).
    rewrite (Ht m0 Hm0) in Hm. injection Hm as <-.
    destruct Hsame as (_ & _ & <- & _). exact Hdom. }
  split; [exact Hinit|].
  destruct (run_calls_ok (store w) cs h1 Hwf) as (h & Hcalls & Hwf' & _ & _ & Hdom).
  exists h. auto.
Qed.

End InvariantClaims.

(** C2, the code against the claim: a catalog that gives a blind the
    position 150 is loaded with that value, outside 0..100. *)
Lemma catalog_state_not_normalized :
  position_after_load = Some (VInt 150)
  /\ in_domain "blind" "position" (VInt 150) = false
  /\ exists w h1,
       startup (Decoded [Some blind_at_150]) heap_150 = Some (inl w, h1)
       /\ ~ store_in_domain (store w) h1.
Proof.
  split; [vm_compute; reflexivity|]. split; [reflexivity|].
  destruct (startup_ok [blind_at_150] heap_150)
    as (w & h1 & Hrun & _ & _ & _ & _ & _ & _ & Hfrom & Hall).
  - discriminate.
  - repeat constructor; discriminate.
  - cbn. apply NoDup_singleton.
  - intros d ->%list_elem_of_singleton. now eexists.
  - exists w, h1. split; [done|]. intros Hdom.
    destruct (Hall blind_at_150) as [d' Hd']; [left|].
    destruct (Hfrom _ _ Hd') as (d & ->%list_elem_of_singleton & _ & (Hsame & Ht)).
    specialize (Ht {[ "position"%string := VInt 150 ]} eq_refl).
    specialize (Hdom _ _ _ Hd' Ht "position"%string (VInt 150) (lookup_singleton_eq _ _)).
    destruct Hsame as (_ & _ & Hk & _). rewrite <- Hk in Hdom. discriminate Hdom.
Qed.


(** ** The claims about the hub *)

Section HubClaims.
Context `{GoRuntime}.


Lemma ws_message_set (c : conn) (id : string) (state : option (gmap string any))
    (w : World) :
  String.eqb id "" = false ->
  ws_message c (set_message id state) w
  = (do r <- Update (store w) id state;
     match r with
     | inr err => ret (WriteJSON c (error_message err) w).2
     | inl updated => ret (send_broadcast updated w)
     end).
Proof.
  intros Hid. unfold ws_message, set_message. cbn [set_Type set_ID set_State].
  change (String.eqb "set" "set") with true. cbn [negb]. now rewrite Hid.
Qed.



(** C6: an update that names an id the store does not hold fails with the
    not-found error and leaves the store and the heap as they were; over
    the websocket the only write is an error reply to the requesting
    connection (the not-found error, when the id is not empty) and
    nothing is queued for broadcast; over HTTP the reply is an error to
    the caller (404 with the not-found message, when the id and the state
    are not empty) and nothing is queued either. *)
Theorem unknown_id_rejected (w : World) (h : heap) (id : string)
    (state : option (gmap string any)) (c : conn) :
  devices (store w) !! id = None ->
  Update (store w) id state h = Some (inr (not_found id), h)
  /\ (exists w' e,
        ws_message c (set_message id state) w h = Some (w', h)
        /\ store w' = store w /\ clients w' = clients w
        /\ broadcast w' = broadcast w /\ broken w' = broken w
        /\ wire w' = wire w ++ (if decide (c ∈ broken w) then []
                                else [(c, error_message e)])
        /\ (id <> ""%string -> e = not_found id))
  /\ (exists status message,
        handle_put id (Some state) w h = Some (status, ErrorBody message, w, h)
        /\ (id <> ""%string -> len state <> 0%nat ->
            status = 404 /\ message = not_found id)).
Proof.
  intros Hd. pose proof (Update_missing (store w) h id state Hd) as Hup.
  split; [exact Hup|].
  assert (Hwrite : forall e,
             exists w',
               ret (WriteJSON c (error_message e) w).2 h = Some (w', h)
               /\ store w' = store w /\ clients w' = clients w
               /\ broadcast w' = broadcast w /\ broken w' = broken w
               /\ wire w' = wire w ++ (if decide (c ∈ broken w) then []
                                       else [(c, error_message e)])).
  { intros e. unfold ret, WriteJSON. destruct (decide (c ∈ broken w)); simpl.
    - exists w. rewrite app_nil_r. repeat split; reflexivity.
    - eexists. split; [reflexivity|]. repeat split; reflexivity. }
  destruct (String.eqb id "") eqn:Hid.
  - split.
    + destruct (Hwrite "missing device id"%string) as (w' & Hrun & Hrest).
      exists w', "missing device id"%string. split.
      * unfold ws_message, set_message. cbn [set_Type set_ID set_State].
        change (String.eqb "set" "set") with true. cbn [negb]. now rewrite Hid.
      * repeat split; try apply Hrest. apply String.eqb_eq in Hid. congruence.
    + exists 400, "missing device id"%string. unfold handle_put. rewrite Hid.
      split; [reflexivity|]. apply String.eqb_eq in Hid. congruence.
  - split.
    + destruct (Hwrite (not_found id)) as (w' & Hrun & Hrest).
      exists w', (not_found id). split.
      * rewrite (ws_message_set c id state w Hid). now erewrite bind_ok by exact Hup.
      * repeat split; try apply Hrest.
    + unfold handle_put. rewrite Hid.
      destruct (Nat.eqb (len state) 0) eqn:Hlen.
      * exists 400, "missing state"%string. split; [done|].
        apply Nat.eqb_eq in Hlen. intros _ Hne. now destruct Hne.
      * erewrite bind_ok by exact Hup. now exists 404, (not_found id).
Qed.

End HubClaims.


(** ** The claim about snapshots *)

Section SnapshotClaims.
Context `{GoRuntime}.

Lemma fresh_table_independent (s : Store) (h h1 : heap) (l : addr) :
  store_wf s h -> store_wf s h1 -> l ∉ dom h -> l ∈ dom h1 ->
  (forall id2 d2, devices s !! id2 = Some d2 -> State d2 <> Some l)
  /\ (forall cs h2, run_calls s cs h1 = Some (tt, h2) -> h2 !! l = h1 !! l)
  /\ (forall o id2 d2, devices s !! id2 = Some d2 ->
                       table (<[l := o]> h1) d2 = table h1 d2).
Proof.
  intros Hwf Hwf1 Hfresh Hin.
  assert (Hno : forall id2 d2, devices s !! id2 = Some d2 -> State d2 <> Some l).
  { intros id2 d2 Hd2 E. destruct Hwf as [Htab _].
    destruct (table_Some_dom h d2) as (a & Ha & Hdom); [eauto|]. congruence. }
  split; [exact Hno|]. split.
  - intros cs h2 Hrun.
    destruct (run_calls_ok s cs h1 Hwf1) as (h' & Hrun' & _ & _ & Hframe & _).
    assert (h' = h2) as -> by congruence. now apply Hframe.
  - intros o id2 d2 Hd2. unfold table.
    destruct (State d2) as [a|] eqn:Ea; [|done]. simpl.
    rewrite lookup_insert_ne; [done|]. intros <-. now apply (Hno _ _ Hd2).
Qed.

(** C7, as amended: every device that [List], [Get] or [Update] hands
    back is a copy of a stored device with a state table of its own, at
    an address that was in use by nothing before the call: later calls on
    the store never change that table, and a write to that table changes
    no table of the store.  The copy is one level deep: the values in the
    table are the stored ones, and a nested object among them is shared
    with the store. *)
Theorem snapshots_independent (s : Store) (h : heap) (c : call) :
  store_wf s h ->
  exists snaps h1,
    returned s c h = Some (snaps, h1)
    /\ forall snap, snap ∈ snaps ->
         exists l id d,
           State snap = Some l /\ (l ∉ dom h)
           /\ devices s !! id = Some d /\ same_fields d snap
           /\ is_Some (table h1 snap) /\ table h1 snap = table h1 d
           /\ (forall id2 d2, devices s !! id2 = Some d2 -> State d2 <> Some l)
           /\ (forall cs h2, run_calls s cs h1 = Some (tt, h2) -> h2 !! l = h1 !! l)
           /\ (forall o id2 d2, devices s !! id2 = Some d2 ->
                                table (<[l := o]> h1) d2 = table h1 d2).
Proof.
  intros Hwf. pose proof Hwf as [Htab Hinj].
  assert (Hfin : forall h1 snap l id d,
             store_wf s h1 -> State snap = Some l -> l ∉ dom h ->
             devices s !! id = Some d -> same_fields d snap ->
             is_Some (table h1 snap) -> table h1 snap = table h1 d ->
             exists l id d,
               State snap = Some l /\ (l ∉ dom h)
               /\ devices s !! id = Some d /\ same_fields d snap
               /\ is_Some (table h1 snap) /\ table h1 snap = table h1 d
               /\ (forall id2 d2, devices s !! id2 = Some d2 -> State d2 <> Some l)
               /\ (forall cs h2, run_calls s cs h1 = Some (tt, h2) -> h2 !! l = h1 !! l)
               /\ (forall o id2 d2, devices s !! id2 = Some d2 ->
                                    table (<[l := o]> h1) d2 = table h1 d2)).
  { intros h1 snap l id d Hwf1 Hl Hfresh Hd Hsame Hsome Heq.
    exists l, id, d. repeat (split; [done|]).
    apply (fresh_table_independent s h h1 l); try done.
    destruct (table_Some_dom h1 snap Hsome) as (a & Ha & Hdom). congruence. }
  destruct c as [id state|id|]; simpl.
  - destruct (devices s !! id) as [d|] eqn:Hd.
    + destruct (Htab _ _ Hd) as [m0 Hm0].
      destruct (Update_effect s h id state d m0 Hd Hm0)
        as (snap & h1 & Hrun & Htd & Hsame & Hts & (l & Hl & Hfresh) & _).
      exists [snap], h1. split; [now erewrite bind_ok by exact Hrun|].
      intros ? ->%list_elem_of_singleton.
      apply (Hfin h1 snap l id d); try done; try (rewrite Hts; eauto); try congruence.
      eapply Update_preserves_wf; eauto.
    + exists [], h. split; [now erewrite bind_ok by now apply Update_missing|].
      intros snap Hin. now apply elem_of_nil in Hin.
  - destruct (devices s !! id) as [d|] eqn:Hd.
    + destruct (Htab _ _ Hd) as [m0 Hm0].
      pose proof (alloc_extends h (OMap m0)) as Hsub.
      exists [with_State d (Some (fresh (dom h)))], (<[fresh (dom h) := OMap m0]> h).
      split; [now erewrite bind_ok by (eapply Get_ok; eauto)|].
      intros ? ->%list_elem_of_singleton.
      assert (Hsnap : table (<[fresh (dom h) := OMap m0]> h)
                        (with_State d (Some (fresh (dom h)))) = Some m0).
      { rewrite table_with_State. simpl. now rewrite lookup_insert_eq. }
      apply (Hfin _ _ (fresh (dom h)) id d); try done;
        [now apply (store_wf_extends s h) | apply is_fresh |].
      rewrite Hsnap. symmetry. now apply (table_weaken h).
    + exists [], h. split; [now erewrite bind_ok by now apply Get_missing|].
      intros snap Hin. now apply elem_of_nil in Hin.
  - destruct (List_ok s h Htab) as (snaps & h1 & Hrun & Hsub & Hall).
    exists snaps, h1. split; [done|]. intros snap Hin.
    destruct (Forall2_elem_r _ _ _ _ Hall Hin) as (d & Hd & Hsame & Ht & l & Hl & Hfresh).
    apply list_elem_of_omap in Hd as (id & _ & Hd).
    destruct (Htab _ _ Hd) as [m0 Hm0].
    apply (Hfin h1 snap l id d); try done;
      [now apply (store_wf_extends s h) | rewrite (Ht m0 Hm0); eauto |].
    rewrite (Ht m0 Hm0). symmetry. now apply (table_weaken h).
Qed.
End SnapshotClaims.

(** C7, the code against the claim: a write into a nested object reached
    through a snapshot changes what the store hands out next. *)
Lemma nested_value_shared :
  @nested_write_through sample_runtime = Some (Some (VInt 7), Some (VInt 9)).
Proof. vm_compute. reflexivity. Qed.


(** ** Closed instances *)

Lemma demo_lookup : devices demo_store !! "blind1"%string = Some demo_device.
Proof. apply lookup_singleton_eq. Qed.

Lemma domain_invariant_witness :
  exists w h1,
    (forall d, d ∈ [blind1] ->
               exists m, contents ∅ (State d) = Some m /\ table_in_domain (Kind d) m)
    /\ startup (Decoded [Some blind1]) ∅ = Some (inl w, h1)
    /\ forallb (@nan_free sample_runtime)
         [CallUpdate "blind1" (Some {[ "position"%string := VFloat64 (f64_of_Z 150) ]});
          CallGet "blind1"] = true
    /\ store_in_domain (store w) h1
    /\ exists h,
         @run_calls sample_runtime (store w)
           [CallUpdate "blind1" (Some {[ "position"%string := VFloat64 (f64_of_Z 150) ]});
            CallGet "blind1"] h1 = Some (tt, h)
         /\ store_wf (store w) h /\ store_in_domain (store w) h.
Proof.
  assert (Hcat : forall d, d ∈ [blind1] ->
                   exists m, contents ∅ (State d) = Some m /\ table_in_domain (Kind d) m).
  { intros d ->%list_elem_of_singleton. exists ∅. split; [reflexivity|].
    intros key v Hv. now rewrite lookup_empty in Hv. }
  destruct (startup (Decoded [Some blind1]) ∅) as [[[w|msg] h1]|] eqn:Hrun;
    [|vm_compute in Hrun; discriminate..].
  exists w, h1. split; [exact Hcat|]. split; [reflexivity|].
  split; [vm_compute; reflexivity|].
  apply (@domain_invariant sample_runtime [blind1] ∅ h1 w _ Hcat Hrun).
  vm_compute. reflexivity.
Defined.

Lemma update_value_in_domain_witness :
  store_wf demo_store demo_heap
  /\ devices demo_store !! "blind1"%string = Some demo_device
  /\ default ∅ (Some ({[ "position"%string := VFloat64 (f64_ratio 426 10) ]} : gmap string any))
       !! "position"%string = Some (VFloat64 (f64_ratio 426 10))
  /\ @reads_as_nan sample_runtime (VFloat64 (f64_ratio 426 10)) = false
  /\ exists snap h' m,
       @Update sample_runtime demo_store "blind1"
         (Some {[ "position"%string := VFloat64 (f64_ratio 426 10) ]}) demo_heap
       = Some (inl snap, h')
       /\ table h' demo_device = Some m /\ m !! "position"%string = Some (VInt 43).
Proof.
  split; [exact demo_store_wf|]. split; [exact demo_lookup|].
  split; [apply lookup_singleton_eq|]. split; [reflexivity|].
  destruct (@update_value_in_domain sample_runtime demo_store demo_heap "blind1" "position"
              (Some {[ "position"%string := VFloat64 (f64_ratio 426 10) ]}) demo_device
              (VFloat64 (f64_ratio 426 10)) demo_store_wf demo_lookup
              (lookup_singleton_eq _ _) eq_refl)
    as (snap & h' & m & v' & Hu & Ht & Hm & _ & Hex).
  destruct (Hex eq_refl) as (_ & _ & H43 & _).
  exists snap, h', m. rewrite <- (H43 eq_refl). auto.
Defined.

Lemma uninterpretable_falls_back_witness :
  store_wf demo_store demo_heap
  /\ devices demo_store !! "blind1"%string = Some demo_device
  /\ default ∅ (Some ({[ "level"%string := VNil ]} : gmap string any)) !! "level"%string
     = Some VNil
  /\ rule_of (Kind demo_device) "level" = Some RLevel
  /\ RLevel <> RMode
  /\ @interpretable sample_runtime RLevel VNil = false
  /\ exists snap h' m,
       @Update sample_runtime demo_store "blind1" (Some {[ "level"%string := VNil ]}) demo_heap
       = Some (inl snap, h')
       /\ table h' demo_device = Some m /\ m !! "level"%string = Some (VInt 0).
Proof.
  split; [exact demo_store_wf|]. split; [exact demo_lookup|].
  split; [apply lookup_singleton_eq|]. split; [reflexivity|].
  split; [discriminate|]. split; [reflexivity|].
  destruct (@uninterpretable_falls_back sample_runtime demo_store demo_heap "blind1" "level"
              (Some {[ "level"%string := VNil ]}) demo_device VNil RLevel
              demo_store_wf demo_lookup (lookup_singleton_eq _ _) eq_refl
              ltac:(discriminate) eq_refl)
    as (snap & h' & m & Hu & Ht & Hm & _).
  exists snap, h', m. auto.
Defined.

Lemma unknown_id_rejected_witness :
  devices (store demo_world) !! "attic"%string = None
  /\ @Update sample_runtime (store demo_world) "attic" None demo_heap
     = Some (inr (not_found "attic"), demo_heap)
  /\ exists w',
       @ws_message sample_runtime 1%positive (set_message "attic" None) demo_world demo_heap
       = Some (w', demo_heap)
       /\ broadcast w' = broadcast demo_world
       /\ wire w' = [(1%positive, error_message (not_found "attic"))].
Proof.
  assert (Hd : devices (store demo_world) !! "attic"%string = None).
  { apply lookup_singleton_ne. discriminate. }
  split; [exact Hd|].
  destruct (@unknown_id_rejected sample_runtime demo_world demo_heap "attic" None 1%positive Hd)
    as (Hu & (w' & e & Hws & _ & _ & Hq & _ & Hwire & He) & _).
  split; [exact Hu|]. exists w'. split; [exact Hws|]. split; [exact Hq|].
  rewrite Hwire, (He ltac:(discriminate)). reflexivity.
Defined.

Lemma snapshots_independent_witness :
  store_wf demo_store demo_heap
  /\ exists snaps h1,
       @returned sample_runtime demo_store (CallGet "blind1") demo_heap = Some (snaps, h1)
       /\ forall snap, snap ∈ snaps ->
            exists l, State snap = Some l /\ (l ∉ dom demo_heap)
                      /\ forall o, table (<[l := o]> h1) demo_device = table h1 demo_device.
Proof.
  split; [exact demo_store_wf|].
  destruct (@snapshots_independent sample_runtime demo_store demo_heap (CallGet "blind1")
              demo_store_wf) as (snaps & h1 & Hrun & Hall).
  exists snaps, h1. split; [exact Hrun|]. intros snap Hin.
  destruct (Hall snap Hin) as (l & id & d & Hl & Hfresh & _ & _ & _ & _ & _ & _ & Hw).
  exists l. split; [done|]. split; [done|]. intros o. exact (Hw o _ _ demo_lookup).
Defined.



(** * Further properties of the code *)

(** ** Normalization *)

Lemma EqualFold_lower (s t : string) :
  EqualFold s t = true <-> lower_string s = lower_string t.
Proof.
  revert t. induction s as [|a s IH]; intros [|b t]; simpl; try (split; congruence).
  rewrite andb_true_iff, IH, Ascii.eqb_eq. split.
  - intros [-> ->]. reflexivity.
  - intros [= -> ->]. auto.
Qed.

Lemma f64_nonzero_false (f : float64) :
  f64_nonzero f = false <-> exists s, f = S754_zero s.
Proof.
  unfold f64_nonzero. destruct f as [s|s| |s m e]; simpl.
  - split; eauto.
  - destruct s; split; try discriminate; intros [? [=]].
  - split; try discriminate; intros [? [=]].
  - destruct s; split; try discriminate; intros [? [=]].
Qed.

(** X1: [toBool] reads a Go bool as itself; a string as true exactly when
    it is true or on in any ASCII capitalisation, or is 1; an int or int64
    as true exactly when it is not 0; a float64 as false exactly when it is
    a zero of either sign (so NaN and the infinities are true); every
    other dynamic type, float32 and json.Number included, as false. *)
Theorem toBool_reading :
  (forall b, toBool (VBool b) = b)
  /\ (forall s, toBool (VString s) = true
                <-> lower_string s = "true"%string \/ s = "1"%string
                    \/ lower_string s = "on"%string)
  /\ (forall n, toBool (VInt n) = true <-> n <> 0)
  /\ (forall n, toBool (VInt64 n) = true <-> n <> 0)
  /\ (forall f, toBool (VFloat64 f) = false <-> exists s, f = S754_zero s)
  /\ toBool (VFloat64 S754_nan) = true
  /\ (forall f, toBool (VFloat32 f) = false)
  /\ (forall s, toBool (VNumber s) = false)
  /\ toBool VNil = false
  /\ (forall l, toBool (VRef l) = false).
Proof.
  split; [reflexivity|]. split.
  { intros s. simpl. rewrite !orb_true_iff, !EqualFold_lower, String.eqb_eq. tauto. }
  split.
  { intros n. simpl. rewrite negb_true_iff, Z.eqb_neq. tauto. }
  split.
  { intros n. simpl. rewrite negb_true_iff, Z.eqb_neq. tauto. }
  split; [intros f; apply f64_nonzero_false|].
  repeat split; reflexivity.
Qed.

Lemma rule_of_mode (kind key : string) :
  rule_of kind key = Some RMode ->
  level_kind kind = false /\ String.eqb kind "thermostat" = false
  /\ switch_kind kind = true
  /\ (String.eqb key "on" || String.eqb key "open" || String.eqb key "locked") = false
  /\ String.eqb key "mode" = true.
Proof. unfold rule_of, one_of, level_kind, switch_kind. simpl. case_eqb. Qed.

Lemma SFltb_irrefl (x : spec_float) : SFltb x x = false.
Proof.
  unfold SFltb. destruct (SFcompare x x) as [c|] eqn:E; [|reflexivity].
  pose proof (SFcompare_antisym _ _ _ E) as E'. rewrite E in E'.
  destruct c; try reflexivity; discriminate.
Qed.

Lemma SFleb_SFltb_false (x y : spec_float) : SFleb x y = true -> SFltb y x = false.
Proof.
  unfold SFleb, SFltb. destruct (SFcompare x y) as [c|] eqn:E; [|discriminate].
  rewrite (SFcompare_antisym _ _ _ E). now destruct c.
Qed.

Lemma clampFloat_fixed (v lo hi : float64) :
  SFleb lo v = true -> SFleb v hi = true -> clampFloat v lo hi = v.
Proof.
  intros H1 H2. unfold clampFloat.
  now rewrite (SFleb_SFltb_false _ _ H1), (SFleb_SFltb_false _ _ H2).
Qed.

Lemma clampFloat_idempotent (v lo hi : float64) :
  SFleb lo hi = true ->
  clampFloat (clampFloat v lo hi) lo hi = clampFloat v lo hi.
Proof.
  intros Hle. unfold clampFloat at 2 3.
  destruct (SFltb v lo) eqn:E1.
  - unfold clampFloat. now rewrite SFltb_irrefl, (SFleb_SFltb_false _ _ Hle).
  - destruct (SFltb hi v) eqn:E2.
    + unfold clampFloat.
      destruct (SFltb hi lo) eqn:E3; [|now rewrite SFltb_irrefl].
      now rewrite (SFleb_SFltb_false _ _ Hle) in E3.
    + unfold clampFloat. now rewrite E1, E2.
Qed.

Lemma clampInt_fixed (v lo hi : Z) : lo <= v <= hi -> clampInt v lo hi = v.
Proof. intros Hv. rewrite clampInt_spec by lia. lia. Qed.

Section NormalizationMore.
Context `{GoRuntime}.

Lemma normalize_mode (kind key : string) (v : any) :
  rule_of kind key = Some RMode ->
  normalizeValue kind key v
  = match v with VString mode => VString (TrimSpace mode) | _ => v end.
Proof.
  intros (Hl & Ht & Hk & Hkey & Hm)%rule_of_mode. unfold normalizeValue.
  now rewrite Hl, Ht, Hk, Hkey, Hm.
Qed.

(** X2: normalizing twice is normalizing once, for every kind, key and
    value, given that trimming a trimmed string changes nothing. *)
Theorem normalize_idempotent (kind key : string) (v : any) :
  (forall s, TrimSpace (TrimSpace s) = TrimSpace s) ->
  normalizeValue kind key (normalizeValue kind key v) = normalizeValue kind key v.
Proof.
  intros Htrim. destruct (rule_of kind key) as [[]|] eqn:Er.
  - rewrite !(normalize_level _ _ _ Er). simpl. f_equal.
    apply clampInt_fixed, clampToInt_bounds.
  - rewrite !(normalize_temperature _ _ _ Er). simpl. f_equal.
    destruct v; simpl; try (apply clampFloat_idempotent; reflexivity);
      try (apply clampFloat_fixed; reflexivity).
    destruct (ParseFloat s);
      [apply clampFloat_idempotent | apply clampFloat_fixed]; reflexivity.
  - now rewrite !(normalize_switch _ _ _ Er).
  - rewrite !(normalize_mode _ _ _ Er). destruct v; try reflexivity. now rewrite Htrim.
  - now rewrite !(rule_of_none _ _ _ Er).
Qed.

(** A value of the domain of its rule is left as it is (the mode rule has
    no domain of its own and is set apart). *)
Lemma normalize_fixed (kind key : string) (v : any) :
  in_domain kind key v = true -> rule_of kind key <> Some RMode ->
  normalizeValue kind key v = v.
Proof.
  unfold in_domain. intros Hd Hm. destruct (rule_of kind key) as [[]|] eqn:Er.
  - rewrite (normalize_level _ _ _ Er). destruct v; try discriminate. simpl in *.
    f_equal. apply clampInt_fixed. lia.
  - rewrite (normalize_temperature _ _ _ Er). destruct v; try discriminate. simpl in *.
    apply andb_true_iff in Hd as [H1 H2]. f_equal. now apply clampFloat_fixed.
  - rewrite (normalize_switch _ _ _ Er). now destruct v.
  - done.
  - apply (rule_of_none _ _ _ Er).
Qed.
(** X18: under the position/level rule a larger integer is never stored
    as a smaller one: normalization of an int is monotone, because the
    bounds it clamps to are in order. *)
Theorem level_monotone (kind key : string) (a b : Z) :
  rule_of kind key = Some RLevel -> a <= b ->
  exists a' b',
    normalizeValue kind key (VInt a) = VInt a'
    /\ normalizeValue kind key (VInt b) = VInt b'
    /\ a' <= b' /\ (0 <= a <= 100 -> a' = a).
Proof.
  intros Er Hab. rewrite !(normalize_level _ _ _ Er). simpl.
  eexists _, _. split; [reflexivity|]. split; [reflexivity|].
  rewrite !clampInt_spec by lia. lia.
Qed.
End NormalizationMore.

(** The [TrimSpace] of [sample_runtime] is idempotent. *)
Lemma trim_right_cons (c : ascii) (s : string) :
  trim_right (String c s)
  = match trim_right s with
    | EmptyString => if is_ascii_space c then EmptyString else String c EmptyString
    | t => String c t
    end.
Proof. reflexivity. Qed.

Lemma trim_right_idempotent (s : string) : trim_right (trim_right s) = trim_right s.
Proof.
  induction s as [|c s IH]; [reflexivity|]. rewrite trim_right_cons.
  destruct (trim_right s) as [|a r] eqn:E.
  - destruct (is_ascii_space c) eqn:Ec; [reflexivity|].
    rewrite trim_right_cons. simpl. now rewrite Ec.
  - rewrite trim_right_cons, IH. reflexivity.
Qed.

Lemma trim_left_head (s : string) :
  match trim_left s with
  | String c _ => is_ascii_space c = false
  | EmptyString => True
  end.
Proof.
  induction s as [|c s IH]; [exact I|]. cbn [trim_left].
  destruct (is_ascii_space c) eqn:Ec; [exact IH | exact Ec].
Qed.

Lemma trim_right_head (c : ascii) (s : string) :
  is_ascii_space c = false -> exists t, trim_right (String c s) = String c t.
Proof.
  intros Ec. rewrite trim_right_cons. destruct (trim_right s); rewrite ?Ec; eauto.
Qed.

Lemma trim_left_fixed (c : ascii) (s : string) :
  is_ascii_space c = false -> trim_left (String c s) = String c s.
Proof. intros Ec. cbn [trim_left]. now rewrite Ec. Qed.

Lemma sample_trim_idempotent (s : string) :
  @TrimSpace sample_runtime (@TrimSpace sample_runtime s) = @TrimSpace sample_runtime s.
Proof.
  simpl. pose proof (trim_left_head s) as Hh.
  destruct (trim_left s) as [|c t] eqn:E; [reflexivity|].
  destruct (trim_right_head c t Hh) as [u Hu]. rewrite Hu.
  rewrite (trim_left_fixed c u Hh), <- Hu. apply trim_right_idempotent.
Qed.

Lemma normalize_idempotent_witness :
  (forall s, @TrimSpace sample_runtime (@TrimSpace sample_runtime s)
             = @TrimSpace sample_runtime s)
  /\ @normalizeValue sample_runtime "toggle" "mode"
       (@normalizeValue sample_runtime "toggle" "mode" (VString "  eco "))
     = @normalizeValue sample_runtime "toggle" "mode" (VString "  eco ").
Proof.
  split; [exact sample_trim_idempotent|].
  exact (@normalize_idempotent sample_runtime "toggle" "mode" (VString "  eco ")
           sample_trim_idempotent).
Defined.

Lemma level_monotone_witness :
  rule_of "humidifier" "level" = Some RLevel /\ -5 <= 150
  /\ exists a' b',
       @normalizeValue sample_runtime "humidifier" "level" (VInt (-5)) = VInt a'
       /\ @normalizeValue sample_runtime "humidifier" "level" (VInt 150) = VInt b'
       /\ a' <= b'.
Proof.
  assert (Hr : rule_of "humidifier" "level" = Some RLevel) by reflexivity.
  assert (Hab : -5 <= 150) by lia.
  split; [exact Hr|]. split; [exact Hab|].
  destruct (@level_monotone sample_runtime "humidifier" "level" (-5) 150 Hr Hab)
    as (a' & b' & Ha & Hb & Hle & _).
  exists a', b'. auto.
Defined.

(** ** The store *)

Lemma home_store_wf : store_wf home_store home_heap.
Proof.
  split; simpl.
  - intros id d [[<- <-]|[_ [<- <-]%lookup_singleton_Some]]%lookup_insert_Some;
      now eexists.
  - intros id1 id2 d1 d2
      [[<- <-]|[_ [<- <-]%lookup_singleton_Some]]%lookup_insert_Some
      [[<- <-]|[_ [<- <-]%lookup_singleton_Some]]%lookup_insert_Some;
      (reflexivity || discriminate).
Qed.

Lemma home_lookup_blind : devices home_store !! "blind1"%string = Some demo_device.
Proof. reflexivity. Qed.

Lemma home_lookup_thermo : devices home_store !! "thermo1"%string = Some thermo_device.
Proof. reflexivity. Qed.

Section StoreMore.
Context `{GoRuntime}.

(** What [Update] does to the tables of the store. *)
Lemma Update_tables (s : Store) (h h' : heap) (id : string)
    (state : option (gmap string any)) (d : Device) (prior : gmap string any)
    (r : Device + string) :
  store_wf s h -> devices s !! id = Some d -> table h d = Some prior ->
  Update s id state h = Some (r, h') ->
  table h' d = Some (normalized_merge (Kind d) prior state)
  /\ (forall id2 d2, id2 <> id -> devices s !! id2 = Some d2 -> table h' d2 = table h d2)
  /\ exists snap, r = inl snap /\ same_fields d snap
                  /\ table h' snap = Some (normalized_merge (Kind d) prior state).
Proof.
  intros [Htab Hinj] Hd Hprior Hrun.
  destruct (Update_effect s h id state d prior Hd Hprior)
    as (snap & h1 & Hup & Htd & Hsame & Hts & _ & Hframe & _).
  rewrite Hup in Hrun. injection Hrun as <- <-.
  split; [done|]. split; [|eauto].
  intros id2 d2 Hne Hd2.
  destruct (table_Some_dom h d2) as (a & Ha & Hin); [eauto|].
  unfold table. rewrite Ha. simpl. rewrite Hframe; [done| |done].
  intros E. apply Hne. apply (Hinj _ _ _ _ Hd2 Hd). congruence.
Qed.

(** X3: writing a device's own state back changes nothing, when its values
    are in the domain of their rules and its mode strings are trimmed. *)
Theorem write_back_unchanged (s : Store) (h : heap) (id : string) (d : Device)
    (prior : gmap string any) :
  store_wf s h -> devices s !! id = Some d -> table h d = Some prior ->
  table_in_domain (Kind d) prior ->
  (forall key mode, prior !! key = Some (VString mode) ->
                    rule_of (Kind d) key = Some RMode -> TrimSpace mode = mode) ->
  exists snap h',
    Update s id (Some prior) h = Some (inl snap, h')
    /\ table h' snap = Some prior
    /\ forall id2 d2, devices s !! id2 = Some d2 -> table h' d2 = table h d2.
Proof.
  intros Hwf Hd Hprior Hdom Hmode.
  destruct (Update_effect s h id (Some prior) d prior Hd Hprior) as (snap & h' & Hrun & _).
  destruct (Update_tables s h h' id (Some prior) d prior _ Hwf Hd Hprior Hrun)
    as (Ht & Hother & snap' & [= <-] & _ & Hts).
  assert (Hfix : normalized_merge (Kind d) prior (Some prior) = prior).
  { apply map_eq. intros key. rewrite normalized_merge_lookup. simpl.
    destruct (prior !! key) as [v|] eqn:Ev; [|reflexivity]. f_equal.
    assert (rule_of (Kind d) key = Some RMode \/ rule_of (Kind d) key <> Some RMode)
      as [Er|Er] by (destruct (rule_of (Kind d) key) as [[]|]; (now left) || (now right)).
    - rewrite (normalize_mode _ _ _ Er). destruct v; try reflexivity.
      now rewrite (Hmode key s0 Ev Er).
    - apply normalize_fixed; [now apply Hdom | exact Er]. }
  rewrite Hfix in Ht, Hts. exists snap, h'. split; [done|]. split; [done|].
  intros id2 d2 Hd2. destruct (decide (id2 = id)) as [->|Hne].
  - assert (d2 = d) as -> by congruence. congruence.
  - exact (Hother id2 d2 Hne Hd2).
Qed.

(** X4: a value supplied under a key that no rule covers for the device's
    kind is stored as it is, whatever its dynamic type. *)
Theorem unruled_key_stored_verbatim (s : Store) (h : heap) (id key : string)
    (state : option (gmap string any)) (d : Device) (v : any) :
  store_wf s h -> devices s !! id = Some d ->
  default ∅ state !! key = Some v -> rule_of (Kind d) key = None ->
  exists snap h' m,
    Update s id state h = Some (inl snap, h')
    /\ table h' d = Some m /\ table h' snap = Some m /\ m !! key = Some v.
Proof.
  intros Hwf Hd Hv Hr.
  destruct (Update_stores s h id key state d v Hwf Hd Hv)
    as (snap & h' & m & Hrun & Ht & Hts & Hm).
  exists snap, h', m. rewrite (rule_of_none _ _ _ Hr) in Hm. auto.
Qed.

(** X5: a temperature that reads as NaN is stored as NaN: both comparisons
    of [clampFloat] are false on it, so it is outside 10..30 and yet kept. *)
Theorem nan_temperature_kept (s : Store) (h : heap) (id key : string)
    (state : option (gmap string any)) (d : Device) (v : any) :
  store_wf s h -> devices s !! id = Some d ->
  default ∅ state !! key = Some v ->
  rule_of (Kind d) key = Some RTemperature -> reads_as_nan v = true ->
  exists snap h' m,
    Update s id state h = Some (inl snap, h')
    /\ table h' d = Some m /\ m !! key = Some (VFloat64 S754_nan)
    /\ in_domain (Kind d) key (VFloat64 S754_nan) = false.
Proof.
  intros Hwf Hd Hv Hr Hnan.
  destruct (Update_stores s h id key state d v Hwf Hd Hv)
    as (snap & h' & m & Hrun & Ht & _ & Hm).
  exists snap, h', m. split; [done|]. split; [done|]. split.
  - rewrite Hm, (normalize_temperature _ _ _ Hr). f_equal.
    now rewrite clampToFloat_reads_nan.
  - unfold in_domain. now rewrite Hr.
Qed.

Lemma extension_frame (s : Store) (h h' : heap) :
  store_wf s h -> h ⊆ h' ->
  forall id2 d2, devices s !! id2 = Some d2 -> table h' d2 = table h d2.
Proof.
  intros [Htab _] Hsub id2 d2 Hd2. destruct (Htab _ _ Hd2) as [m Hm].
  rewrite Hm. now apply (table_weaken h).
Qed.

Lemma Get_frame (s : Store) (h : heap) :
  store_wf s h ->
  forall id r h', Get s id h = Some (r, h') ->
    forall id2 d2, devices s !! id2 = Some d2 -> table h' d2 = table h d2.
Proof.
  intros Hwf id r h' Hrun. apply extension_frame; [done|].
  destruct (devices s !! id) as [d|] eqn:Hd.
  - destruct (proj1 Hwf _ _ Hd) as [m Hm]. rewrite (Get_ok s h id d m Hd Hm) in Hrun.
    injection Hrun as <- <-. apply alloc_extends.
  - rewrite (Get_missing s h id Hd) in Hrun. now injection Hrun as <- <-.
Qed.

Lemma List_frame (s : Store) (h : heap) :
  store_wf s h ->
  forall ds h', List s h = Some (ds, h') ->
    forall id2 d2, devices s !! id2 = Some d2 -> table h' d2 = table h d2.
Proof.
  intros Hwf ds h' Hrun. apply extension_frame; [done|].
  destruct (List_ok s h (proj1 Hwf)) as (snaps & h1 & Hrun' & Hsub & _).
  rewrite Hrun in Hrun'. now injection Hrun' as <- <-.
Qed.

(** X7: [Get] and [List] always return, and write to no table of the
    store: every stored device reads the same before and after, for a
    known id, an unknown id and the whole list alike. *)
Theorem reads_leave_tables (s : Store) (h : heap) (id : string) :
  store_wf s h ->
  exists r h1 ds h2,
    Get s id h = Some (r, h1) /\ List s h = Some (ds, h2)
    /\ (is_Some r <-> is_Some (devices s !! id))
    /\ length ds = length (omap (fun id => devices s !! id) (order s))
    /\ forall id2 d2, devices s !! id2 = Some d2 ->
         table h1 d2 = table h d2 /\ table h2 d2 = table h d2.
Proof.
  intros Hwf.
  destruct (List_ok s h (proj1 Hwf)) as (ds & h2 & Hlist & _ & Hsnaps).
  assert (exists r h1, Get s id h = Some (r, h1)
                       /\ (is_Some r <-> is_Some (devices s !! id)))
    as (r & h1 & Hget & Hr).
  { destruct (devices s !! id) as [d|] eqn:Hd.
    - destruct (proj1 Hwf _ _ Hd) as [m Hm]. rewrite (Get_ok s h id d m Hd Hm).
      eexists _, _. split; [reflexivity|]. split; eauto.
    - rewrite (Get_missing s h id Hd). eexists _, _. split; [reflexivity|]. tauto. }
  exists r, h1, ds, h2. split; [done|]. split; [done|]. split; [done|].
  split; [symmetry; exact (Forall2_length _ _ _ Hsnaps)|].
  intros id2 d2 Hd2. split.
  - exact (Get_frame s h Hwf id r h1 Hget id2 d2 Hd2).
  - exact (List_frame s h Hwf ds h2 Hlist id2 d2 Hd2).
Qed.

(** X8: [Update] of one device leaves the state of every other device as
    it was. *)
Theorem update_isolated (s : Store) (h h' : heap) (id : string)
    (state : option (gmap string any)) (r : Device + string) :
  store_wf s h -> Update s id state h = Some (r, h') ->
  forall id2 d2, id2 <> id -> devices s !! id2 = Some d2 -> table h' d2 = table h d2.
Proof.
  intros Hwf Hrun id2 d2 Hne Hd2. destruct (devices s !! id) as [d|] eqn:Hd.
  - destruct (proj1 Hwf _ _ Hd) as [prior Hprior].
    exact (proj1 (proj2 (Update_tables s h h' id state d prior r Hwf Hd Hprior Hrun))
             id2 d2 Hne Hd2).
  - rewrite (Update_missing s h id state Hd) in Hrun. now injection Hrun as <- <-.
Qed.

Lemma normalized_merge_compose (kind : string) (prior : gmap string any)
    (s1 s2 : option (gmap string any)) :
  normalized_merge kind (normalized_merge kind prior s1) s2
  = normalized_merge kind prior (Some (default ∅ s2 ∪ default ∅ s1)).
Proof.
  apply map_eq. intros key. rewrite !normalized_merge_lookup. simpl.
  rewrite lookup_union. destruct (default ∅ s2 !! key) as [v2|]; simpl.
  - now destruct (default ∅ s1 !! key).
  - now destruct (default ∅ s1 !! key).
Qed.

(** X9: two updates of a device in a row leave the state that one update
    leaves whose partial state is the second laid over the first; in
    particular the same update twice is the update once. *)
Theorem updates_compose (s : Store) (h : heap) (id : string)
    (s1 s2 : option (gmap string any)) (d : Device) :
  store_wf s h -> devices s !! id = Some d ->
  exists r1 h1 r2 h2 r12 h12,
    Update s id s1 h = Some (r1, h1) /\ Update s id s2 h1 = Some (r2, h2)
    /\ Update s id (Some (default ∅ s2 ∪ default ∅ s1)) h = Some (r12, h12)
    /\ table h2 d = table h12 d
    /\ (s1 = s2 -> table h2 d = table h1 d).
Proof.
  intros Hwf Hd. destruct (proj1 Hwf _ _ Hd) as [prior Hprior].
  destruct (Update_effect s h id s1 d prior Hd Hprior) as (snap1 & h1 & Hu1 & Ht1 & _).
  pose proof (Update_preserves_wf s h h1 id s1 _ Hwf Hu1) as Hwf1.
  destruct (Update_effect s h1 id s2 d _ Hd Ht1) as (snap2 & h2 & Hu2 & Ht2 & _).
  destruct (Update_effect s h id (Some (default ∅ s2 ∪ default ∅ s1)) d prior Hd Hprior)
    as (snap12 & h12 & Hu12 & Ht12 & _).
  exists (inl snap1), h1, (inl snap2), h2, (inl snap12), h12.
  split; [done|]. split; [done|]. split; [done|].
  rewrite Ht2, Ht12, Ht1, normalized_merge_compose. split; [reflexivity|].
  intros <-. f_equal. apply map_eq. intros key. rewrite !normalized_merge_lookup. simpl.
  rewrite lookup_union. now destruct (default ∅ s1 !! key).
Qed.

(** *** The identity of the devices *)

(** Calls keep the store well-formed and never touch [devices] or [order];
    what [List] returns afterwards still has the fields of the catalog. *)
Lemma listed_fields (catalog : list Device) (h0 h1 h : heap) (w : World) :
  (forall d, d ∈ catalog -> is_Some (contents h0 (State d))) ->
  startup (Decoded (Some <$> catalog)) h0 = Some (inl w, h1) ->
  store_wf (store w) h ->
  exists listed h', List (store w) h = Some (listed, h')
                    /\ Forall2 same_fields catalog listed.
Proof.
  intros Htyped Hrun Hwf.
  destruct (startup_inl_inv _ _ _ _ Hrun) as (Hne & Hf & Hnd).
  destruct (startup_ok catalog h0 Hne Hf Hnd Htyped)
    as (w' & h1' & Hrun' & _ & _ & Hord & _ & _ & _ & Hfrom & Hall).
  rewrite Hrun in Hrun'. injection Hrun' as <- <-.
  destruct (List_ok (store w) h (proj1 Hwf)) as (listed & h' & Hlist & _ & Hsnaps).
  exists listed, h'. split; [done|]. rewrite Hord in Hsnaps.
  eapply Forall2_trans; [|apply (Forall2_omap_lookup same_fields)|exact Hsnaps].
  - intros d d' snap (? & ? & ? & ?) ((? & ? & ? & ?) & _). repeat split; congruence.
  - intros d Hd. destruct (Hall d Hd) as [d' Hd']. exists d'. split; [done|].
    destruct (Hfrom _ _ Hd') as (d0 & Hd0 & Hid & (Hsame & _)).
    now rewrite (NoDup_fmap_eq ID catalog d d0 Hnd Hd Hd0).
Qed.

(** X6: no call adds, removes, reorders or renames a device: after every
    sequence of calls [List] returns one device per catalog entry, in
    catalog order, with the id, name, kind and room of that entry. *)
Theorem devices_fixed (catalog : list Device) (h0 h1 : heap) (w : World)
    (cs : list call) :
  (forall d, d ∈ catalog -> is_Some (contents h0 (State d))) ->
  startup (Decoded (Some <$> catalog)) h0 = Some (inl w, h1) ->
  exists h listed h',
    run_calls (store w) cs h1 = Some (tt, h)
    /\ List (store w) h = Some (listed, h')
    /\ Forall2 same_fields catalog listed.
Proof.
  intros Htyped Hrun.
  destruct (startup_inl_inv _ _ _ _ Hrun) as (Hne & Hf & Hnd).
  destruct (startup_ok catalog h0 Hne Hf Hnd Htyped) as (w' & h1' & Hrun' & Hwf & _).
  rewrite Hrun in Hrun'. injection Hrun' as <- <-.
  destruct (run_calls_ok (store w) cs h1 Hwf) as (h & Hcalls & Hwf' & _).
  destruct (listed_fields catalog h0 h1 h w Htyped Hrun Hwf') as (listed & h' & Hl & Hall).
  exists h, listed, h'. auto.
Qed.
End StoreMore.

(** *** Closed instances *)

Lemma home_thermo_table :
  table home_heap thermo_device
  = Some {[ "temperature"%string := VFloat64 (f64_of_Z 21) ]}.
Proof. reflexivity. Qed.

Lemma write_back_unchanged_witness :
  store_wf home_store home_heap
  /\ devices home_store !! "thermo1"%string = Some thermo_device
  /\ table_in_domain (Kind thermo_device)
       {[ "temperature"%string := VFloat64 (f64_of_Z 21) ]}
  /\ exists snap h',
       @Update sample_runtime home_store "thermo1"
         (Some {[ "temperature"%string := VFloat64 (f64_of_Z 21) ]}) home_heap
       = Some (inl snap, h')
       /\ table h' snap = Some {[ "temperature"%string := VFloat64 (f64_of_Z 21) ]}
       /\ forall id2 d2, devices home_store !! id2 = Some d2 ->
                         table h' d2 = table home_heap d2.
Proof.
  assert (Hdom : table_in_domain (Kind thermo_device)
                   {[ "temperature"%string := VFloat64 (f64_of_Z 21) ]}).
  { intros key v [<- <-]%lookup_singleton_Some. vm_compute. reflexivity. }
  split; [exact home_store_wf|]. split; [exact home_lookup_thermo|]. split; [exact Hdom|].
  apply (@write_back_unchanged sample_runtime home_store home_heap "thermo1" thermo_device
           _ home_store_wf home_lookup_thermo home_thermo_table Hdom).
  intros key mode [_ [=]]%lookup_singleton_Some.
Defined.

Lemma unruled_key_stored_verbatim_witness :
  store_wf home_store home_heap
  /\ devices home_store !! "thermo1"%string = Some thermo_device
  /\ rule_of (Kind thermo_device) "position" = None
  /\ exists snap h' m,
       @Update sample_runtime home_store "thermo1"
         (Some {[ "position"%string := VString "up" ]}) home_heap = Some (inl snap, h')
       /\ table h' thermo_device = Some m /\ table h' snap = Some m
       /\ m !! "position"%string = Some (VString "up").
Proof.
  assert (Hr : rule_of (Kind thermo_device) "position" = None) by reflexivity.
  split; [exact home_store_wf|]. split; [exact home_lookup_thermo|]. split; [exact Hr|].
  apply (@unruled_key_stored_verbatim sample_runtime home_store home_heap "thermo1"
           "position" (Some {[ "position"%string := VString "up" ]}) thermo_device
           (VString "up") home_store_wf home_lookup_thermo);
    [apply lookup_singleton_eq | exact Hr].
Defined.

Lemma nan_temperature_kept_witness :
  store_wf home_store home_heap
  /\ devices home_store !! "thermo1"%string = Some thermo_device
  /\ rule_of (Kind thermo_device) "temperature" = Some RTemperature
  /\ @reads_as_nan sample_runtime (VFloat64 S754_nan) = true
  /\ exists snap h' m,
       @Update sample_runtime home_store "thermo1"
         (Some {[ "temperature"%string := VFloat64 S754_nan ]}) home_heap
       = Some (inl snap, h')
       /\ table h' thermo_device = Some m
       /\ m !! "temperature"%string = Some (VFloat64 S754_nan)
       /\ in_domain (Kind thermo_device) "temperature" (VFloat64 S754_nan) = false.
Proof.
  assert (Hr : rule_of (Kind thermo_device) "temperature" = Some RTemperature)
    by reflexivity.
  assert (Hn : @reads_as_nan sample_runtime (VFloat64 S754_nan) = true) by reflexivity.
  split; [exact home_store_wf|]. split; [exact home_lookup_thermo|]. split; [exact Hr|].
  split; [exact Hn|].
  apply (@nan_temperature_kept sample_runtime home_store home_heap "thermo1"
           "temperature" (Some {[ "temperature"%string := VFloat64 S754_nan ]})
           thermo_device (VFloat64 S754_nan) home_store_wf home_lookup_thermo);
    [apply lookup_singleton_eq | exact Hr | exact Hn].
Defined.

Lemma reads_leave_tables_witness :
  store_wf home_store home_heap
  /\ exists r h1 ds h2,
       Get home_store "blind1" home_heap = Some (r, h1)
       /\ List home_store home_heap = Some (ds, h2)
       /\ is_Some r /\ length ds = 2%nat
       /\ table h1 thermo_device = table home_heap thermo_device
       /\ table h2 thermo_device = table home_heap thermo_device.
Proof.
  split; [exact home_store_wf|].
  destruct (reads_leave_tables home_store home_heap "blind1" home_store_wf)
    as (r & h1 & ds & h2 & Hget & Hlist & Hr & Hlen & Hframe).
  exists r, h1, ds, h2. split; [exact Hget|]. split; [exact Hlist|].
  split; [apply Hr; now eexists|]. split; [exact Hlen|].
  exact (Hframe "thermo1"%string thermo_device home_lookup_thermo).
Defined.

Lemma update_isolated_witness :
  store_wf home_store home_heap
  /\ exists r h',
       @Update sample_runtime home_store "blind1"
         (Some {[ "position"%string := VInt 150 ]}) home_heap = Some (r, h')
       /\ "thermo1"%string <> "blind1"%string
       /\ table h' thermo_device = table home_heap thermo_device.
Proof.
  split; [exact home_store_wf|].
  destruct (@Update sample_runtime home_store "blind1"
              (Some {[ "position"%string := VInt 150 ]}) home_heap)
    as [[r h']|] eqn:Hrun; [|vm_compute in Hrun; discriminate].
  assert (Hne : "thermo1"%string <> "blind1"%string) by discriminate.
  exists r, h'. split; [reflexivity|]. split; [exact Hne|].
  exact (@update_isolated sample_runtime home_store home_heap h' "blind1" _ r
           home_store_wf Hrun "thermo1"%string thermo_device Hne home_lookup_thermo).
Defined.

Lemma updates_compose_witness :
  store_wf home_store home_heap
  /\ devices home_store !! "blind1"%string = Some demo_device
  /\ exists r1 h1 r2 h2 r12 h12,
       @Update sample_runtime home_store "blind1"
         (Some {[ "position"%string := VInt 150 ]}) home_heap = Some (r1, h1)
       /\ @Update sample_runtime home_store "blind1"
            (Some {[ "tilt"%string := VInt 3 ]}) h1 = Some (r2, h2)
       /\ @Update sample_runtime home_store "blind1"
            (Some (default ∅ (Some ({[ "tilt"%string := VInt 3 ]} : gmap string any))
                   ∪ default ∅ (Some ({[ "position"%string := VInt 150 ]}
                                      : gmap string any))))
            home_heap = Some (r12, h12)
       /\ table h2 demo_device = table h12 demo_device.
Proof.
  split; [exact home_store_wf|]. split; [exact home_lookup_blind|].
  destruct (@updates_compose sample_runtime home_store home_heap "blind1"
              (Some {[ "position"%string := VInt 150 ]})
              (Some {[ "tilt"%string := VInt 3 ]}) demo_device
              home_store_wf home_lookup_blind)
    as (r1 & h1 & r2 & h2 & r12 & h12 & H1 & H2 & H12 & Ht & _).
  exists r1, h1, r2, h2, r12, h12. auto.
Defined.

Lemma devices_fixed_witness :
  exists w h1,
    (forall d, d ∈ [blind1; thermo1] -> is_Some (contents ∅ (State d)))
    /\ startup (Decoded [Some blind1; Some thermo1]) ∅ = Some (inl w, h1)
    /\ exists h listed h',
         @run_calls sample_runtime (store w)
           [CallUpdate "thermo1" (Some {[ "temperature"%string := VInt 25 ]});
            CallGet "blind1"; CallList] h1 = Some (tt, h)
         /\ List (store w) h = Some (listed, h')
         /\ Forall2 same_fields [blind1; thermo1] listed.
Proof.
  assert (Hcat : forall d, d ∈ [blind1; thermo1] -> is_Some (contents ∅ (State d))).
  { intros d Hd. apply elem_of_cons in Hd as [->|Hd]; [now eexists|].
    apply list_elem_of_singleton in Hd as ->. now eexists. }
  destruct (startup (Decoded [Some blind1; Some thermo1]) ∅) as [[[w|msg] h1]|] eqn:Hrun;
    [|vm_compute in Hrun; discriminate..].
  exists w, h1. split; [exact Hcat|]. split; [reflexivity|].
  exact (@devices_fixed sample_runtime [blind1; thermo1] ∅ h1 w _ Hcat Hrun).
Defined.

(** ** Loading *)

Lemma NewStore_loop_fresh (catalog : list Device) :
  forall (s0 s : Store) (h h' : heap),
    for_each catalog
      (fun s device =>
         do copyDevice <- copy_device device;
         ret {| devices := <[ID device := copyDevice]> (devices s);
                order := order s ++ [ID device] |}) s0 h = Some (s, h') ->
    h ⊆ h'
    /\ forall id d', devices s !! id = Some d' ->
         devices s0 !! id = Some d' \/ exists l, State d' = Some l /\ l ∉ dom h.
Proof.
  induction catalog as [|d rest IH]; intros s0 s h h' Hrun; cbn [for_each] in Hrun.
  - injection Hrun as <- <-. split; [done|]. auto.
  - destruct (copy_device d h) as [[copyDevice h1]|] eqn:Hcopy;
      [|now rewrite (bind_panic _ _ _ (bind_panic _ _ _ Hcopy)) in Hrun].
    erewrite bind_ok in Hrun by (erewrite bind_ok by exact Hcopy; reflexivity).
    assert (Hc : h1 = <[fresh (dom h) := OMap (default ∅ (contents h (State d)))]> h
                 /\ copyDevice = with_State d (Some (fresh (dom h)))).
    { destruct (contents h (State d)) as [m|] eqn:Hm.
      - rewrite (copy_device_ok h d m Hm) in Hcopy. now injection Hcopy as <- <-.
      - exfalso. unfold copy_device, bind, copyState in Hcopy.
        destruct (State d) as [l|]; simpl in Hm; [|discriminate].
        unfold bind, load_map in Hcopy. destruct (h !! l) as [[?|?]|]; discriminate. }
    destruct Hc as [-> ->].
    destruct (IH _ _ _ _ Hrun) as (Hsub & Hfresh).
    split; [etrans; [apply alloc_extends | exact Hsub]|].
    intros id d' Hd'. destruct (Hfresh id d' Hd') as [Hold|(l & Hl & Hnew)].
    + simpl in Hold. rewrite lookup_insert in Hold. case_decide as E.
      * injection Hold as <-. right. exists (fresh (dom h)). split; [done | apply is_fresh].
      * now left.
    + right. exists l. split; [done|]. intros Hin. apply Hnew.
      rewrite dom_insert_L. apply elem_of_union. now right.
Qed.

(** X11: [NewStore] takes a copy of every state map of the catalog.  For
    a catalog with distinct ids whose states are maps (or nil), it
    returns a store that keeps the catalog's order and holds, under the
    id of each catalog device, a device with the same fields whose table
    has exactly the entries of that device's catalog map (none for a nil
    state), at an address the catalog does not use; the maps of the
    catalog are left as they were, and a later write to any of them
    changes no table of the store. *)
Theorem NewStore_copies (catalog : list Device) (h : heap) :
  (forall d, d ∈ catalog -> is_Some (contents h (State d))) ->
  NoDup (ID <$> catalog) ->
  exists s h',
    NewStore catalog h = Some (s, h')
    /\ h ⊆ h' /\ order s = ID <$> catalog
    /\ forall d, d ∈ catalog ->
         exists d',
           devices s !! ID d = Some d' /\ same_fields d d'
           /\ (forall m, contents h (State d) = Some m -> table h' d' = Some m)
           /\ (exists l, State d' = Some l /\ l ∉ dom h)
           /\ forall a o, a ∈ dom h -> table (<[a := o]> h') d' = table h' d'.
Proof.
  intros Htyped Hnd.
  destruct (NewStore_ok catalog h Htyped) as (s & h' & Hrun & Hsub & _ & Hord & _ & Hin).
  destruct (NewStore_loop_fresh catalog _ _ _ _ Hrun) as (_ & Hfresh).
  exists s, h'. split; [done|]. split; [done|]. split; [done|].
  intros d Hd. destruct (Hin (ID d)) as (d0 & d' & Hd0 & Hid & Hd' & Hsame & Ht).
  { now apply list_elem_of_fmap_2. }
  rewrite (NoDup_fmap_eq ID catalog d0 d Hnd Hd0 Hd Hid) in *.
  exists d'. split; [done|]. split; [done|]. split; [done|].
  destruct (Hfresh (ID d) d' Hd') as [Hold|(l & Hl & Hnew)].
  { simpl in Hold. now rewrite lookup_empty in Hold. }
  split; [eauto|]. intros a o Ha. unfold table. rewrite Hl. simpl.
  rewrite lookup_insert_ne; [done|]. now intros ->.
Qed.

Lemma NewStore_copies_witness :
  (forall d, d ∈ [blind_at_150] -> is_Some (contents heap_150 (State d)))
  /\ NoDup (ID <$> [blind_at_150])
  /\ exists s h' d',
       NewStore [blind_at_150] heap_150 = Some (s, h')
       /\ heap_150 ⊆ h'
       /\ devices s !! "blind1"%string = Some d'
       /\ table h' d' = Some {[ "position"%string := VInt 150 ]}
       /\ forall o, table (<[1%positive := o]> h') d' = table h' d'.
Proof.
  assert (Ht : forall d, d ∈ [blind_at_150] -> is_Some (contents heap_150 (State d))).
  { intros d ->%list_elem_of_singleton. now eexists. }
  assert (Hnd : NoDup (ID <$> [blind_at_150])) by apply NoDup_singleton.
  split; [exact Ht|]. split; [exact Hnd|].
  destruct (NewStore_copies [blind_at_150] heap_150 Ht Hnd)
    as (s & h' & Hrun & Hsub & _ & Hall).
  destruct (Hall blind_at_150) as (d' & Hd' & _ & Htab & _ & Hframe); [now left|].
  exists s, h', d'. split; [exact Hrun|]. split; [exact Hsub|]. split; [exact Hd'|].
  split; [now apply Htab|]. intros o. apply Hframe. apply elem_of_dom. now eexists.
Defined.

(** The loop of [loadDevices] stops at the first entry that is at fault. *)
Lemma check_devices_first_fault (pre : list Device) :
  forall (seen : gset string) (h : heap) (rest : list (option Device)),
    Forall fields_present pre -> NoDup (ID <$> pre) ->
    (forall id, id ∈ ID <$> pre -> id ∉ seen) ->
    check_devices ((Some <$> pre) ++ None :: rest) seen h = None
    /\ forall d,
         (~ fields_present d ->
          exists h', check_devices ((Some <$> pre) ++ Some d :: rest) seen h
                     = Some (inr "device missing id, name, or kind"%string, h'))
         /\ (fields_present d -> ID d ∈ seen \/ ID d ∈ ID <$> pre ->
             exists h', check_devices ((Some <$> pre) ++ Some d :: rest) seen h
                        = Some (inr ("duplicate device id: " +:+ ID d), h')).
Proof.
  induction pre as [|p pre IH]; intros seen h rest Hf Hnd Hseen.
  - rewrite fmap_nil. cbn [app check_devices]. split; [reflexivity|]. intros d. split.
    + intros Hbad. destruct (_ || _) eqn:E; [eauto|].
      now apply missing_field_test in E.
    + intros Hok [Hin|Hin]; [|now apply elem_of_nil in Hin].
      apply missing_field_test in Hok. rewrite Hok. rewrite decide_True by done. eauto.
  - inversion Hf as [|? ? Hp Hf']; subst.
    cbn [fmap list_fmap] in Hnd. inversion Hnd as [|? ? Hnotin Hnd']; subst.
    rewrite fmap_cons. apply missing_field_test in Hp.
    destruct (ensure_state_ok h p) as (p' & h1 & Hrun1 & _).
    destruct (IH ({[ID p]} ∪ seen) h1 rest Hf' Hnd') as (Hnil & Hdev).
    { intros id Hid [->%elem_of_singleton|Hin]%elem_of_union; [done|].
      revert Hin. apply Hseen. now right. }
    assert (Hstep : forall entry,
              check_devices ((Some p :: (Some <$> pre)) ++ entry :: rest) seen h
              = (do r <- check_devices ((Some <$> pre) ++ entry :: rest) ({[ID p]} ∪ seen);
                 ret match r with
                     | inl checked => inl (p' :: checked)
                     | inr err => inr err
                     end) h1).
    { intros entry. cbn [app check_devices]. rewrite Hp.
      rewrite decide_False by (apply Hseen; left).
      now erewrite bind_ok by exact Hrun1. }
    split.
    + rewrite Hstep. now apply bind_panic.
    + intros d. destruct (Hdev d) as (Hmiss & Hdup). split.
      * intros Hbad. destruct (Hmiss Hbad) as [h' Hrun]. exists h'.
        rewrite Hstep. now erewrite bind_ok by exact Hrun.
      * intros Hok Hin. destruct (Hdup Hok) as [h' Hrun].
        -- destruct Hin as [Hin|[->|Hin]%elem_of_cons].
           ++ left. apply elem_of_union. now right.
           ++ left. apply elem_of_union. left. now apply elem_of_singleton.
           ++ now right.
        -- exists h'. rewrite Hstep. now erewrite bind_ok by exact Hrun.
Qed.

(** X10: [loadDevices] stops at the first entry at fault in catalog order.
    When every entry before it is a device with its three fields and an
    id of its own: a device that lacks a field gives the missing-field
    error; a device that has its fields but repeats an earlier id gives
    the duplicate error naming that id; and a null entry, which the loop
    dereferences without a check, makes [loadDevices] panic instead of
    returning an error.  Later entries are not looked at. *)
Theorem loadDevices_first_fault (pre : list Device) (rest : list (option Device))
    (h : heap) :
  Forall fields_present pre -> NoDup (ID <$> pre) ->
  loadDevices (Decoded ((Some <$> pre) ++ None :: rest)) h = None
  /\ forall d,
       (~ fields_present d ->
        exists h', loadDevices (Decoded ((Some <$> pre) ++ Some d :: rest)) h
                   = Some (inr "device missing id, name, or kind"%string, h'))
       /\ (fields_present d -> ID d ∈ ID <$> pre ->
           exists h', loadDevices (Decoded ((Some <$> pre) ++ Some d :: rest)) h
                      = Some (inr ("duplicate device id: " +:+ ID d), h')).
Proof.
  intros Hf Hnd.
  assert (Hload : forall entry,
            loadDevices (Decoded ((Some <$> pre) ++ entry :: rest)) h
            = check_devices ((Some <$> pre) ++ entry :: rest) ∅ h).
  { intros entry. unfold loadDevices. now destruct pre. }
  destruct (check_devices_first_fault pre ∅ h rest Hf Hnd) as (Hnil & Hdev).
  { intros id _. apply not_elem_of_empty. }
  split; [now rewrite Hload|]. intros d. rewrite Hload.
  destruct (Hdev d) as (Hmiss & Hdup).
  split; [exact Hmiss|]. intros Hok Hin. apply Hdup; auto.
Qed.

Lemma loadDevices_first_fault_witness :
  Forall fields_present [blind1] /\ NoDup (ID <$> [blind1])
  /\ fields_present blind1 /\ ID blind1 ∈ ID <$> [blind1]
  /\ loadDevices (Decoded ((Some <$> [blind1]) ++ None :: [Some blind1])) ∅ = None
  /\ exists h', loadDevices
                  (Decoded ((Some <$> [blind1]) ++ Some blind1 :: [None; Some thermo1])) ∅
                = Some (inr "duplicate device id: blind1"%string, h').
Proof.
  assert (Hp : fields_present blind1) by (repeat split; discriminate).
  assert (Hf : Forall fields_present [blind1]) by (repeat constructor; discriminate).
  assert (Hnd : NoDup (ID <$> [blind1])) by apply NoDup_singleton.
  assert (Hin : ID blind1 ∈ ID <$> [blind1]) by (cbn; left).
  split; [exact Hf|]. split; [exact Hnd|]. split; [exact Hp|]. split; [exact Hin|].
  split.
  - exact (proj1 (loadDevices_first_fault [blind1] [Some blind1] ∅ Hf Hnd)).
  - exact (proj2 (proj2 (loadDevices_first_fault [blind1] [None; Some thermo1] ∅ Hf Hnd)
                    blind1) Hp Hin).
Defined.

(** ** The hub *)

Lemma receivers_NoDup (w : World) :
  NoDup (filter (fun c => c ∉ broken w) (elements (clients w))).
Proof. apply NoDup_filter, NoDup_elements. Qed.

Lemma receivers_elem (w : World) (c : conn) :
  c ∈ filter (fun c => c ∉ broken w) (elements (clients w))
  <-> c ∈ clients w /\ c ∉ broken w.
Proof. rewrite list_elem_of_filter, elem_of_elements. tauto. Qed.

Lemma tagged_fst (message : WSMessage) (l : list conn) :
  ((fun c => (c, message)) <$> l).*1 = l.
Proof. induction l as [|c l IH]; [done|]. cbn. now rewrite IH. Qed.

(** X12: a broadcast writes the message exactly once to each client whose
    connection works and to nobody else, drops the clients whose write
    fails, and leaves the store and the queue alone. *)
Theorem broadcast_receivers (message : WSMessage) (w : World) :
  exists new,
    wire (broadcastMessage message w) = wire w ++ new
    /\ new.*1 ≡ₚ elements (clients w ∖ broken w)
    /\ Forall (fun cm => cm.2 = message) new
    /\ clients (broadcastMessage message w) = clients w ∖ broken w
    /\ store (broadcastMessage message w) = store w
    /\ broadcast (broadcastMessage message w) = broadcast w.
Proof.
  destruct (broadcastMessage_spec message w) as (Hs & Hq & _ & Hc & Hw). cbn zeta in *.
  eexists. split; [exact Hw|]. split; [|split; [|auto]].
  - rewrite tagged_fst.
    apply NoDup_Permutation; [apply receivers_NoDup | apply NoDup_elements |].
    intros c. rewrite receivers_elem, elem_of_elements, elem_of_difference. tauto.
  - apply Forall_fmap, Forall_forall. now intros.
Qed.





Section HubMore.
Context `{GoRuntime}.

Lemma WriteJSON_error (c : conn) (message : WSMessage) (w : World) :
  store (WriteJSON c message w).2 = store w
  /\ clients (WriteJSON c message w).2 = clients w
  /\ broadcast (WriteJSON c message w).2 = broadcast w
  /\ broken (WriteJSON c message w).2 = broken w
  /\ wire (WriteJSON c message w).2
     = wire w ++ (if decide (c ∈ broken w) then [] else [(c, message)]).
Proof.
  unfold WriteJSON. destruct (decide (c ∈ broken w)); simpl.
  - now rewrite app_nil_r.
  - repeat split; reflexivity.
Qed.


(** X15: one turn of the read loop of [HandleWS] does one of three
    things.  When the read fails (closed connection, or a frame that does
    not decode) the loop ends with no reply, the sender is removed from
    the clients, and queue, wire and heap are as they were.  When a
    message is decoded the loop goes on, the set of clients is unchanged,
    and either one error message is written to the sender alone (nothing,
    when the sender's writes fail) with queue and heap as they were, or
    one device is queued and nothing is written; the last happens only
    for a message of type set with a non-empty id that the store holds. *)
Theorem ws_read_outcomes (c : conn) (r : read_result) (w : World) (h : heap) :
  store_wf (store w) h ->
  exists w' h' continue,
    ws_read c r w h = Some (w', continue, h')
    /\ store w' = store w /\ broken w' = broken w
    /\ ((r = ReadFailed /\ continue = false
         /\ clients w' = clients w ∖ {[c]}
         /\ h' = h /\ broadcast w' = broadcast w /\ wire w' = wire w)
        \/ (continue = true /\ clients w' = clients w
            /\ h' = h /\ broadcast w' = broadcast w
            /\ exists incoming e,
                 r = Received incoming
                 /\ wire w' = wire w ++ (if decide (c ∈ broken w) then []
                                         else [(c, error_message e)]))
        \/ (continue = true /\ clients w' = clients w
            /\ wire w' = wire w
            /\ exists incoming snap,
                 r = Received incoming
                 /\ set_Type incoming = "set"%string /\ set_ID incoming <> ""%string
                 /\ is_Some (devices (store w) !! set_ID incoming)
                 /\ broadcast w' = broadcast w ++ [snap])).
Proof.
  intros [Htab Hinj]. destruct r as [|incoming].
  { exists (unregister c w), h, false. split; [reflexivity|]. split; [done|].
    split; [done|]. left. repeat split; reflexivity. }
  cbn [ws_read]. unfold ws_message.
  assert (Hreject : forall e,
            exists w' h' continue,
              (do w' <- ret (WriteJSON c (error_message e) w).2; ret (w', true)) h
              = Some (w', continue, h')
              /\ store w' = store w /\ broken w' = broken w
              /\ ((Received incoming = ReadFailed /\ continue = false
                   /\ clients w' = clients w ∖ {[c]}
                   /\ h' = h /\ broadcast w' = broadcast w /\ wire w' = wire w)
                  \/ (continue = true /\ clients w' = clients w
                      /\ h' = h /\ broadcast w' = broadcast w
                      /\ exists incoming0 e,
                           Received incoming = Received incoming0
                           /\ wire w' = wire w ++ (if decide (c ∈ broken w) then []
                                                   else [(c, error_message e)]))
                  \/ (continue = true /\ clients w' = clients w
                      /\ wire w' = wire w
                      /\ exists incoming0 snap,
                           Received incoming = Received incoming0
                           /\ set_Type incoming0 = "set"%string
                           /\ set_ID incoming0 <> ""%string
                           /\ is_Some (devices (store w) !! set_ID incoming0)
                           /\ broadcast w' = broadcast w ++ [snap]))).
  { intros e. destruct (WriteJSON_error c (error_message e) w) as (Hs & Hc & Hb & Hbr & Hw).
    eexists. exists h, true. split; [reflexivity|]. split; [done|]. split; [done|].
    right. left. split; [done|]. split; [done|]. split; [done|]. split; [done|].
    now exists incoming, e. }
  destruct (String.eqb (set_Type incoming) "set") eqn:Hty; cbn [negb]; [|apply Hreject].
  destruct (String.eqb (set_ID incoming) "") eqn:Hid; [apply Hreject|].
  apply String.eqb_eq in Hty. apply String.eqb_neq in Hid.
  destruct (devices (store w) !! set_ID incoming) as [d|] eqn:Hd.
  - destruct (Htab _ _ Hd) as [prior Hprior].
    destruct (Update_effect (store w) h _ (set_State incoming) d prior Hd Hprior)
      as (snap & h' & Hup & _).
    exists (send_broadcast snap w), h', true. split.
    { erewrite bind_ok; [reflexivity|]. now erewrite bind_ok by exact Hup. }
    split; [done|]. split; [done|]. right. right.
    split; [done|]. split; [done|]. split; [done|].
    exists incoming, snap. split; [done|]. split; [done|]. split; [done|].
    split; [now rewrite Hd|]. reflexivity.
  - destruct (Hreject (not_found (set_ID incoming))) as (w' & h' & continue & Hrun & Hrest).
    exists w', h', continue. split; [|exact Hrest].
    rewrite <- Hrun. unfold bind.
    now rewrite (Update_missing _ h _ _ Hd).
Qed.

(** X16: the two write paths agree.  For a non-empty id and a non-empty
    state, [PUT /api/devices/<id>] answers 200 with a device exactly when
    the websocket set message for the same id and state queues that
    device, and both leave the same heap and the same hub behind. *)
Theorem put_agrees_with_set (c : conn) (id : string) (state : option (gmap string any))
    (w w' : World) (h h' : heap) (snap : Device) :
  id <> ""%string -> len state <> 0%nat ->
  handle_put id (Some state) w h = Some (200, DeviceBody snap, w', h')
  <-> (ws_message c (set_message id state) w h = Some (w', h')
       /\ broadcast w' = broadcast w ++ [snap]).
Proof.
  intros Hid Hlen. apply String.eqb_neq in Hid. apply Nat.eqb_neq in Hlen.
  rewrite (ws_message_set c id state w Hid).
  unfold handle_put. rewrite Hid, Hlen. unfold bind.
  destruct (Update (store w) id state h) as [[[updated|err] h1]|]; unfold ret, writeError.
  - split.
    + intros [= <- <- <-]. split; reflexivity.
    + intros [[= <- <-] Hq]. simpl in Hq. apply app_inv_head in Hq.
      now injection Hq as <-.
  - split; [discriminate|]. intros [[= <- <-] Hq].
    destruct (WriteJSON_error c (error_message err) w) as (_ & _ & Hb & _).
    rewrite Hb in Hq. rewrite <- (app_nil_r (broadcast w)) in Hq at 1.
    apply app_inv_head in Hq. discriminate.
  - split; [discriminate|]. now intros [? _].
Qed.

(** X17: of the requests to [/api/devices] and [/api/devices/<id>] only a
    PUT can change anything: every other method is answered, leaves the
    hub as it is and every table of the store as it was, and a method
    other than GET is answered 405 (400 on the device route when the id
    is empty) without touching the heap. *)
Theorem only_put_writes (method id : string) (payload : option (option (gmap string any)))
    (w : World) (h : heap) :
  store_wf (store w) h -> method <> "PUT"%string ->
  (exists r h',
     handle_device method id payload w h = Some (r, w, h')
     /\ (forall id2 d2, devices (store w) !! id2 = Some d2 -> table h' d2 = table h d2)
     /\ (id = ""%string -> r = writeError 400 "missing device id" /\ h' = h)
     /\ (id <> ""%string -> method <> "GET"%string ->
         r = writeError 405 "method not allowed" /\ h' = h))
  /\ (exists r h',
        handle_devices method w h = Some (r, h')
        /\ (forall id2 d2, devices (store w) !! id2 = Some d2 -> table h' d2 = table h d2)
        /\ (method <> "GET"%string -> r = writeError 405 "method not allowed" /\ h' = h)).
Proof.
  intros Hwf Hput. pose proof (Get_frame (store w) h Hwf) as Hget.
  pose proof (List_frame (store w) h Hwf) as Hlist.
  apply String.eqb_neq in Hput. split.
  - unfold handle_device. destruct (String.eqb id "") eqn:Hid.
    { exists (writeError 400 "missing device id"), h. split; [reflexivity|].
      split; [done|]. split; [done|]. apply String.eqb_eq in Hid. done. }
    apply String.eqb_neq in Hid.
    destruct (String.eqb method "GET") eqn:Hm.
    + unfold handle_get. apply String.eqb_neq in Hid. rewrite Hid.
      apply String.eqb_neq in Hid. apply String.eqb_eq in Hm.
      destruct (Get (store w) id h) as [[r h']|] eqn:Hrun.
      * erewrite bind_ok; [|erewrite bind_ok by exact Hrun; cbn beta iota].
        2:{ instantiate (1 := h'). instantiate (1 := match r with
                                 | Some device => (200, DeviceBody device)
                                 | None => writeError 404 "device not found" end).
            now destruct r. }
        eexists. exists h'. split; [reflexivity|]. split; [exact (Hget id r h' Hrun)|].
        split; [done|]. intros _ Hne. contradiction.
      * exfalso. destruct (devices (store w) !! id) as [d|] eqn:Hd.
        -- destruct (proj1 Hwf _ _ Hd) as [m Hm'].
           now rewrite (Get_ok _ _ _ _ _ Hd Hm') in Hrun.
        -- now rewrite (Get_missing _ _ _ Hd) in Hrun.
    + rewrite Hput. exists (writeError 405 "method not allowed"), h.
      split; [reflexivity|]. split; [done|]. split; [done|]. done.
  - unfold handle_devices. destruct (String.eqb method "GET") eqn:Hm; cbn [negb].
    + destruct (List_ok (store w) h (proj1 Hwf)) as (ds & h' & Hrun & _).
      erewrite bind_ok by exact Hrun. cbn beta iota.
      eexists. exists h'. split; [reflexivity|]. split; [exact (Hlist ds h' Hrun)|].
      apply String.eqb_eq in Hm. intros Hne. contradiction.
    + exists (writeError 405 "method not allowed"), h. split; [reflexivity|]. done.
Qed.
End HubMore.

(** *** Closed instances *)


Lemma ws_read_outcomes_witness :
  store_wf (store home_world) home_heap
  /\ (exists w' h',
        @ws_read sample_runtime 1%positive ReadFailed home_world home_heap
        = Some (w', false, h')
        /\ clients w' = clients home_world ∖ {[1%positive]}
        /\ wire w' = wire home_world)
  /\ exists w' h' continue,
       @ws_read sample_runtime 1%positive
         (Received (set_message "blind1" (Some {[ "position"%string := VInt 40 ]})))
         home_world home_heap = Some (w', continue, h')
       /\ clients w' = clients home_world.
Proof.
  split; [exact home_store_wf|]. split.
  - destruct (@ws_read_outcomes sample_runtime 1%positive ReadFailed
                home_world home_heap home_store_wf)
      as (w' & h' & continue & Hrun & _ & _
          & [(_ & -> & Hc & _ & _ & Hw)|[(_ & _ & _ & _ & ? & ? & [=] & _)
                                        |(_ & _ & _ & ? & ? & [=] & _)]]).
    exists w', h'. auto.
  - destruct (@ws_read_outcomes sample_runtime 1%positive
                (Received (set_message "blind1" (Some {[ "position"%string := VInt 40 ]})))
                home_world home_heap home_store_wf)
      as (w' & h' & continue & Hrun & _ & _
          & [([=] & _)|[(_ & Hc & _)|(_ & Hc & _)]]);
      exists w', h', continue; auto.
Defined.

Lemma put_agrees_with_set_witness :
  "blind1"%string <> ""%string
  /\ len (Some {[ "position"%string := VInt 40 ]}) <> 0%nat
  /\ exists snap w' h',
       @ws_message sample_runtime 1%positive
         (set_message "blind1" (Some {[ "position"%string := VInt 40 ]}))
         home_world home_heap = Some (w', h')
       /\ broadcast w' = broadcast home_world ++ [snap]
       /\ @handle_put sample_runtime "blind1"
            (Some (Some {[ "position"%string := VInt 40 ]})) home_world home_heap
          = Some (200, DeviceBody snap, w', h').
Proof.
  assert (Hid : "blind1"%string <> ""%string) by discriminate.
  assert (Hlen : len (Some {[ "position"%string := VInt 40 ]}) <> 0%nat).
  { unfold len. rewrite map_size_singleton. discriminate. }
  split; [exact Hid|]. split; [exact Hlen|].
  destruct (@Update_effect sample_runtime (store home_world) home_heap "blind1"
              (Some {[ "position"%string := VInt 40 ]}) demo_device _
              home_lookup_blind eq_refl) as (snap & h' & Hup & _).
  assert (Hrun : @ws_message sample_runtime 1%positive
                   (set_message "blind1" (Some {[ "position"%string := VInt 40 ]}))
                   home_world home_heap
                 = Some (send_broadcast snap home_world, h')).
  { rewrite (@ws_message_set sample_runtime 1%positive "blind1" _ home_world eq_refl).
    now erewrite bind_ok by exact Hup. }
  exists snap, (send_broadcast snap home_world), h'.
  split; [exact Hrun|]. split; [reflexivity|].
  apply (@put_agrees_with_set sample_runtime 1%positive "blind1" _ home_world _
           home_heap h' snap Hid Hlen). split; [exact Hrun | reflexivity].
Defined.

Lemma only_put_writes_witness :
  store_wf (store home_world) home_heap /\ "DELETE"%string <> "PUT"%string
  /\ (exists r h',
        @handle_device sample_runtime "DELETE" "blind1" None home_world home_heap
        = Some (r, home_world, h')
        /\ forall id2 d2, devices (store home_world) !! id2 = Some d2 ->
                          table h' d2 = table home_heap d2)
  /\ exists r h',
       handle_devices "DELETE" home_world home_heap = Some (r, h')
       /\ forall id2 d2, devices (store home_world) !! id2 = Some d2 ->
                         table h' d2 = table home_heap d2.
Proof.
  assert (Hm : "DELETE"%string <> "PUT"%string) by discriminate.
  split; [exact home_store_wf|]. split; [exact Hm|].
  destruct (@only_put_writes sample_runtime "DELETE" "blind1" None home_world home_heap
              home_store_wf Hm)
    as ((r & h' & Hrun & Hframe & _) & (r2 & h2 & Hrun2 & Hframe2 & _)).
  split; [exists r, h' | exists r2, h2]; auto.
Defined.


(** * The round trip against the policy table *)






Section PolicyClaims.
Context `{GoRuntime}.



End PolicyClaims.



(** * Rounding at the edges *)

(** C4, the code against the claim: two positions that [encoding/json]
    decodes from a request are not rounded to the nearest integer before
    they are clamped.  The float64 just below one half (the text
    0.49999999999999994) is nearer to 0 than to 1, and [int(number+0.5)]
    stores 1 on every platform, because the sum is rounded to 1.0 before
    it is truncated.  The float64 of 1e19 rounds to itself, which clamps
    to 100, and is stored as 0 on amd64, because the conversion to a
    64-bit integer is done before the clamp and has no representable
    result.  Both stored values are in 0..100. *)
Lemma level_rounding_slips :
  (json_decoded (VFloat64 below_half) = true
   /\ SFltb below_half f64_half = true
   /\ nearest_integer below_half = Some 0
   /\ (forall runtime : GoRuntime,
         @normalizeValue runtime "blind" "position" (VFloat64 below_half) = VInt 1)
   /\ @stored_after sample_runtime blind1 "position" (VFloat64 below_half)
      = Some (VInt 1))
  /\ (json_decoded (VFloat64 ten_to_19) = true
      /\ nearest_integer ten_to_19 = Some (10 ^ 19)
      /\ Z.max 0 (Z.min 100 (10 ^ 19)) = 100
      /\ (forall runtime : GoRuntime,
            @normalizeValue runtime "blind" "position" (VFloat64 ten_to_19)
            = VInt (clampInt (@float_to_int_unrepresentable runtime
                                (f64_add ten_to_19 f64_half)) 0 100))
      /\ @stored_after sample_runtime blind1 "position" (VFloat64 ten_to_19)
         = Some (VInt 0)).
Proof.
  split.
  - split; [reflexivity|]. split; [reflexivity|]. split; [reflexivity|].
    split; [intros runtime; reflexivity|]. vm_compute. reflexivity.
  - split; [reflexivity|]. split; [vm_compute; reflexivity|]. split; [reflexivity|].
    split; [intros runtime; reflexivity|]. vm_compute. reflexivity.
Qed.
